(** * MIPS trace statistics: a shallow embedding of [program_statistics.c]

    The program reads a trace of [(address, word)] pairs, decodes every word
    as a MIPS32 instruction and folds the decoded instructions into a [Stats]
    record.  The embedding follows the C source function by function.

    Conventions.
    - [uint64_t] values are integers in [[0, 2^64)]; the wrap-around of
      unsigned arithmetic is written out with [wrap64].
    - Conversions to [int] and [long] reduce modulo the width (two's
      complement); the [long] subtraction of [addBranchCount] wraps likewise.
    - The [int] counters of [Stats] are unbounded integers here;
      [getStat_counters_fit_int] shows that they stay far inside the [int]
      range for every trace the 1000-entry buffer of [main] can hold.
    - Behaviour the C standard leaves undefined that the claims talk about
      (a shift count outside [[0, 63]], an index outside the register
      table, a store behind the end of the trace buffer) is an explicit
      failure of the embedded function. *)

From Stdlib Require Import ZArith Lia Bool List.
From Stdlib Require Import Floats.SpecFloat.
From stdpp Require Import base option list strings.

Local Open Scope Z_scope.

(** ** Machine integers *)

Module CInt.

Definition wrap64 (z : Z) : Z := z mod 2 ^ 64.

(** Conversion to a signed integer of [w] bits. *)
Definition to_signed (w z : Z) : Z :=
  (z + 2 ^ (w - 1)) mod 2 ^ w - 2 ^ (w - 1).

Definition to_int (z : Z) : Z := to_signed 32 z.
Definition to_long (z : Z) : Z := to_signed 64 z.

Definition INT_MIN : Z := - 2 ^ 31.
Definition INT_MAX : Z := 2 ^ 31 - 1.

(** A shift of a 64-bit operand is defined for counts in [[0, 63]] only. *)
Definition shift_ok (n : Z) : bool := (0 <=? n) && (n <? 64).

End CInt.

Import CInt.

(** ** Data model *)

(** [typedef enum { i, r, j } Type;] *)
Inductive InstrType : Set := i | r | j.

(** [typedef struct { ... } Instruction;] *)
Record Instruction : Set := mkInstruction {
  addr : Z; word : Z;
  op : Z; rs : Z; rt : Z; rd : Z; shamt : Z; funct : Z; imm : Z; jAddr : Z;
  type : InstrType
}.

(** [typedef struct { ... } Stats;]  The table [int reg[32][2]] is kept in
    its row-major layout: 64 cells, cell [2 * row + col]. *)
Record Stats : Type := mkStats {
  insts : Z; rType : Z; iType : Z; jType : Z;
  fwdTaken : Z; bkwTaken : Z; notTaken : Z;
  loads : Z; stores : Z; arith : Z;
  reg : list Z
}.

(** [Stats stats = {0};] *)
Definition stats0 : Stats :=
  mkStats 0 0 0 0 0 0 0 0 0 0 (replicate 64 0).

(** Field increments ([stats->f++]). *)
Definition inc_insts (s : Stats) : Stats :=
  mkStats (insts s + 1) (rType s) (iType s) (jType s) (fwdTaken s) (bkwTaken s)
          (notTaken s) (loads s) (stores s) (arith s) (reg s).
Definition inc_rType (s : Stats) : Stats :=
  mkStats (insts s) (rType s + 1) (iType s) (jType s) (fwdTaken s) (bkwTaken s)
          (notTaken s) (loads s) (stores s) (arith s) (reg s).
Definition inc_iType (s : Stats) : Stats :=
  mkStats (insts s) (rType s) (iType s + 1) (jType s) (fwdTaken s) (bkwTaken s)
          (notTaken s) (loads s) (stores s) (arith s) (reg s).
Definition inc_jType (s : Stats) : Stats :=
  mkStats (insts s) (rType s) (iType s) (jType s + 1) (fwdTaken s) (bkwTaken s)
          (notTaken s) (loads s) (stores s) (arith s) (reg s).
Definition inc_fwdTaken (s : Stats) : Stats :=
  mkStats (insts s) (rType s) (iType s) (jType s) (fwdTaken s + 1) (bkwTaken s)
          (notTaken s) (loads s) (stores s) (arith s) (reg s).
Definition inc_bkwTaken (s : Stats) : Stats :=
  mkStats (insts s) (rType s) (iType s) (jType s) (fwdTaken s) (bkwTaken s + 1)
          (notTaken s) (loads s) (stores s) (arith s) (reg s).
Definition inc_notTaken (s : Stats) : Stats :=
  mkStats (insts s) (rType s) (iType s) (jType s) (fwdTaken s) (bkwTaken s)
          (notTaken s + 1) (loads s) (stores s) (arith s) (reg s).
Definition inc_loads (s : Stats) : Stats :=
  mkStats (insts s) (rType s) (iType s) (jType s) (fwdTaken s) (bkwTaken s)
          (notTaken s) (loads s + 1) (stores s) (arith s) (reg s).
Definition inc_stores (s : Stats) : Stats :=
  mkStats (insts s) (rType s) (iType s) (jType s) (fwdTaken s) (bkwTaken s)
          (notTaken s) (loads s) (stores s + 1) (arith s) (reg s).
Definition inc_arith (s : Stats) : Stats :=
  mkStats (insts s) (rType s) (iType s) (jType s) (fwdTaken s) (bkwTaken s)
          (notTaken s) (loads s) (stores s) (arith s + 1) (reg s).
Definition set_reg (t : list Z) (s : Stats) : Stats :=
  mkStats (insts s) (rType s) (iType s) (jType s) (fwdTaken s) (bkwTaken s)
          (notTaken s) (loads s) (stores s) (arith s) t.

(** ** The register table *)

Definition read : Z := 0.
Definition write : Z := 1.

(** Position of [reg[row][col]] in the row-major table. *)
Definition cell (row col : Z) : nat := Z.to_nat (2 * row + col).

Definition in_table (row col : Z) : bool :=
  (0 <=? row) && (row <? 32) && (0 <=? col) && (col <? 2).

(** [stats->reg[row][col] += d]; an index outside [int reg[32][2]] has no
    defined behaviour and fails. *)
Definition reg_add (d row col : Z) (s : Stats) : option Stats :=
  if in_table row col
  then Some (set_reg (alter (Z.add d) (cell row col) (reg s)) s)
  else None.

(** [stats->reg[row][col]++] and [stats->reg[row][col]--]. *)
Definition reg_incr : Z -> Z -> Stats -> option Stats := reg_add 1.
Definition reg_decr : Z -> Z -> Stats -> option Stats := reg_add (-1).

(** Reading a cell ([stats->reg[row][col]], as [printStats] does). *)
Definition reg_get (s : Stats) (row col : Z) : Z :=
  default 0 (reg s !! cell row col).

(** The tallies other than the register table are the same in [s] and [s']. *)
Definition same_counters (s s' : Stats) : Prop := s' = set_reg (reg s') s.

(** ** Bit fields *)

(** [return (int) ((word & bitMask) >> start);] *)
Definition bitsAt_masked (word bitMask start : Z) : Z :=
  to_int (Z.shiftr (Z.land word bitMask) start).

(** [int bitsAt(uint64_t word, int start, int end)].  The two shifts that
    build the mask need a count in [[0, 63]]. *)
Definition bitsAt (word start end_ : Z) : option Z :=
  let n := end_ - start + 1 in
  if shift_ok n && shift_ok start then
    let bitMask := wrap64 (Z.shiftl (wrap64 (Z.shiftl 1 n - 1)) start) in
    Some (bitsAt_masked word bitMask start)
  else None.

(** The bits [start .. start + n - 1] of [w], moved to position 0: what a
    field of the instruction word is meant to hold. *)
Definition field (w start n : Z) : Z := (w / 2 ^ start) mod 2 ^ n.

(** ** Classification *)

(** [Type getOp(int op)] *)
Definition getOp (op : Z) : InstrType :=
  if op =? 0x00 then r
  else if (op =? 0x02) || (op =? 0x03) then j
  else i.

(** [void addType(Stats *stats, Type type)] *)
Definition addType (stats : Stats) (type : InstrType) : Stats :=
  match type with
  | r => inc_rType stats
  | i => inc_iType stats
  | j => inc_jType stats
  end.

Definition load_ops : list Z := [0x20; 0x24; 0x21; 0x25; 0x23].
Definition store_ops : list Z := [0x28; 0x29; 0x2b].

Definition mem (x : Z) (l : list Z) : bool := existsb (Z.eqb x) l.

(** [void addToLoad(Stats *stats, int op)] *)
Definition addToLoad (stats : Stats) (op : Z) : Stats :=
  if mem op load_ops then inc_loads stats
  else if mem op store_ops then inc_stores stats
  else stats.

Definition arith_functs : list Z :=
  [0x20; 0x21; 0x22; 0x23; 0x18; 0x19; 0x1a; 0x1b; 0x10; 0x12; 0x00; 0x01].
Definition arith_ops : list Z := [0x08; 0x09].

(** [void addArith(Stats *stats, int op, int funct)] *)
Definition addArith (stats : Stats) (op funct : Z) : Stats :=
  if op =? 0x00 then
    if mem funct arith_functs then inc_arith stats else stats
  else
    if mem op arith_ops then inc_arith stats else stats.

(** [void addReadWrite(Stats *stats, Instruction *in)] *)
Definition addReadWrite (stats : Stats) (ins : Instruction) : option Stats :=
  match type ins with
  | r =>
      s ← reg_incr (rd ins) write stats;
      s ← reg_incr (rs ins) read s;
      s ← reg_incr (rt ins) read s;
      if funct ins =? 0x08 then
        s ← reg_decr (rd ins) write s;
        reg_decr (rt ins) read s
      else if mem (funct ins) [0x00; 0x02; 0x3] then
        reg_decr (rs ins) read s
      else Some s
  | i =>
      s ← reg_incr (rt ins) write stats;
      s ← reg_incr (rs ins) read s;
      if op ins =? 0xf then
        reg_decr (rs ins) read s
      else if mem (op ins) [0x4; 0x5] then
        s ← reg_decr (rt ins) write s;
        reg_incr (rt ins) read s
      else if mem (op ins) [0x28; 0x29; 0x2b; 0x38] then
        s ← reg_incr (rt ins) read s;
        reg_decr (rt ins) write s
      else Some s
  | j =>
      if op ins =? 0x3 then
        s ← reg_decr (rt ins) write stats;
        s ← reg_decr (rs ins) read s;
        reg_incr 31 write s
      else Some stats
  end.

(** The difference [inAddr - prevAddr] computed in [long]. *)
Definition addr_diff (prevAddr inAddr : Z) : Z := to_long (inAddr - prevAddr).

(** [void addBranchCount(Stats *stats, long prevAddr, long inAddr, int prevOp)] *)
Definition addBranchCount (stats : Stats) (prevAddr inAddr prevOp : Z) : Stats :=
  let diff := addr_diff prevAddr inAddr in
  if diff >? 4 then inc_fwdTaken stats
  else if diff <? 0 then inc_bkwTaken stats
  else if (prevOp =? 0x04) || (prevOp =? 0x05) then inc_notTaken stats
  else stats.

(** ** The analysis pass *)

(** The decoding assignments at the head of the loop body of [getStat]. *)
Definition decode (a w : Z) : option Instruction :=
  op ← bitsAt w 26 31;
  rs ← bitsAt w 21 25;
  rt ← bitsAt w 16 20;
  rd ← bitsAt w 11 15;
  shamt ← bitsAt w 6 10;
  funct ← bitsAt w 0 5;
  imm ← bitsAt w 0 15;
  jAddr ← bitsAt w 0 25;
  Some (mkInstruction a w op rs rt rd shamt funct imm jAddr (getOp op)).

(** One iteration of the [for] loop of [getStat]: the state is the
    accumulator and the pointer [prev]. *)
Definition getStat_step (acc : Stats * option Instruction) (rec : Z * Z)
  : option (Stats * option Instruction) :=
  let '(stats, prev) := acc in
  ins ← decode (fst rec) (snd rec);
  let stats := inc_insts stats in
  let stats := addType stats (type ins) in
  let stats := addToLoad stats (op ins) in
  let stats := addArith stats (op ins) (funct ins) in
  stats ← addReadWrite stats ins;
  let stats :=
    match prev with
    | Some p => addBranchCount stats (to_long (addr p)) (to_long (addr ins)) (op p)
    | None => stats
    end in
  Some (stats, Some ins).

Fixpoint getStat_loop (recs : list (Z * Z)) (acc : Stats * option Instruction)
  : option (Stats * option Instruction) :=
  match recs with
  | [] => Some acc
  | rec :: rest => acc' ← getStat_step acc rec; getStat_loop rest acc'
  end.

(** [Stats getStat(Instruction *list, int count)], on the [count] records
    of [list]. *)
Definition getStat (recs : list (Z * Z)) : option Stats :=
  fst <$> getStat_loop recs (stats0, None).

(** The tallies of one loop iteration that cannot fail, in the order of
    the calls. *)
Definition tally (stats : Stats) (ins : Instruction) : Stats :=
  addArith (addToLoad (addType (inc_insts stats) (type ins)) (op ins))
           (op ins) (funct ins).

(** The guarded call of [addBranchCount]. *)
Definition branch (prev : option Instruction) (ins : Instruction)
    (stats : Stats) : Stats :=
  match prev with
  | Some p => addBranchCount stats (to_long (addr p)) (to_long (addr ins)) (op p)
  | None => stats
  end.

(** The rule of the specification for a pair of consecutive instructions,
    on the signed difference [diff] of their addresses and the opcode of
    the first: the new values of the forward-taken, backward-taken and
    not-taken counters. *)
Definition classifyBranch (diff prevOp : Z) (fbn : Z * Z * Z) : Z * Z * Z :=
  let '(f, b, n) := fbn in
  if 4 <? diff then (f + 1, b, n)
  else if diff <? 0 then (f, b + 1, n)
  else if (prevOp =? 0x04) || (prevOp =? 0x05) then (f, b, n + 1)
  else (f, b, n).

(** Every counter of [s] is between 0 and [n], and every cell of the table
    between [-n] and [2 * n]. *)
Definition counters_within (n : Z) (s : Stats) : Prop :=
  (0 <= insts s <= n /\ 0 <= rType s <= n /\ 0 <= iType s <= n
   /\ 0 <= jType s <= n /\ 0 <= loads s <= n /\ 0 <= stores s <= n
   /\ 0 <= arith s <= n)
  /\ (0 <= fwdTaken s <= n /\ 0 <= bkwTaken s <= n /\ 0 <= notTaken s <= n)
  /\ length (reg s) = 64%nat
  /\ forall row col,
      in_table row col = true -> - n <= reg_get s row col <= 2 * n.

(** All the [int] objects of a [Stats]. *)
Definition ints_of (s : Stats) : list Z :=
  [insts s; rType s; iType s; jType s; fwdTaken s; bkwTaken s; notTaken s;
   loads s; stores s; arith s] ++ reg s.

(** 1 on the cell [reg[r][c]], 0 on every other cell. *)
Definition hit (row col r c : Z) : Z :=
  if (row =? r) && (col =? c) then 1 else 0.

(** A table of 64 cells, none below zero. *)
Definition nonneg_table (s : Stats) : Prop :=
  length (reg s) = 64%nat
  /\ forall row col, in_table row col = true -> 0 <= reg_get s row col.

(** The tallies made instruction by instruction grew from [x] to [x'] by
    as much as from [y] to [y']. *)
Definition same_growth (x x' y y' : Stats) : Prop :=
  insts x' - insts x = insts y' - insts y
  /\ rType x' - rType x = rType y' - rType y
  /\ iType x' - iType x = iType y' - iType y
  /\ jType x' - jType x = jType y' - jType y
  /\ loads x' - loads x = loads y' - loads y
  /\ stores x' - stores x = stores y' - stores y
  /\ arith x' - arith x = arith y' - arith y
  /\ forall row col,
      in_table row col = true ->
      reg_get x' row col - reg_get x row col
      = reg_get y' row col - reg_get y row col.

(** The fields of a decoded record in closed form ([decode_eq] shows that
    [decode] computes them). *)
Definition decode_fields (a w : Z) : Instruction :=
  mkInstruction a w (field w 26 6) (field w 21 5) (field w 16 5) (field w 11 5)
                (field w 6 5) (field w 0 6) (field w 0 16) (field w 0 26)
                (getOp (field w 26 6)).

(** A cell of a register table, 0 outside it. *)
Definition tget (t : list Z) (row col : Z) : Z := default 0 (t !! cell row col).

(** ** The report *)

Module Report.

(** The C type [float]: IEEE 754 binary32. *)
Definition prec : Z := 24.
Definition emax : Z := 128.

(** Conversion [(float) n] of an [int]. *)
Definition float_of_int (n : Z) : spec_float :=
  binary_normalize prec emax n 0 false.

Definition fdiv : spec_float -> spec_float -> spec_float := SFdiv prec emax.
Definition fmul : spec_float -> spec_float -> spec_float := SFmul prec emax.

(** [(float) count / stats->insts * 100]: the count is converted, divided
    by the converted total, and the quotient is multiplied by 100. *)
Definition percent (count total : Z) : spec_float :=
  fmul (fdiv (float_of_int count) (float_of_int total)) (float_of_int 100).

(** One [fprintf] of [printStats]; the text of a number is not modelled. *)
Inductive line : Type :=
| IntLine (key : string) (v : Z)
| PctLine (key : string) (v : spec_float)
| RegLine (idx : Z) (reads writes : Z).

Definition pct_keys : list string :=
  ["fwd-taken"; "bkw-taken"; "not-taken"; "loads"; "stores"; "arith"]%string.

(** The six counters reported as percentages, in the order of the report. *)
Definition pct_counters (stats : Stats) : list Z :=
  [fwdTaken stats; bkwTaken stats; notTaken stats;
   loads stats; stores stats; arith stats].

(** The dividend and the divisor of every percentage line. *)
Definition pct_operands (stats : Stats) : list (Z * Z) :=
  map (fun c => (c, insts stats)) (pct_counters stats).

Definition pct_values (stats : Stats) : list spec_float :=
  map (fun cd => percent (fst cd) (snd cd)) (pct_operands stats).

(** [void printStats(FILE *outFile, Stats *stats)] *)
Definition printStats (stats : Stats) : list line :=
  [IntLine "insts" (insts stats); IntLine "r-type" (rType stats);
   IntLine "i-type" (iType stats); IntLine "j-type" (jType stats)]
  ++ zip_with PctLine pct_keys (pct_values stats)
  ++ map (fun k => RegLine k (reg_get stats k 0) (reg_get stats k 1))
         (map Z.of_nat (seq 0 32)).

End Report.

(** ** Reading the trace *)

Module Reader.

(** The input as [fscanf] sees it after skipping white space: a
    hexadecimal number of value [v], or a character that cannot start one.
    [%lx] stores [v] itself in the [uint64_t] when [0 <= v < 2^64]; what
    it stores for a longer number is outside the embedding, and the
    theorems about what [main] analyses take traces that satisfy
    [trace_ok]. *)
Inductive token : Set :=
| Hex (v : Z)
| Junk.

(** What one call [fscanf(inFile, "%lx %lx", &a, &w)] did. *)
Inductive scanned : Set :=
| ScanEOF
| ScanNone
| ScanAddr (a : Z)
| ScanBoth (a w : Z).

Definition EOF : Z := -1.

(** The value [fscanf] returns: [EOF] when the input ends before the
    first conversion, else the number of items assigned. *)
Definition returned (s : scanned) : Z :=
  match s with
  | ScanEOF => EOF
  | ScanNone => 0
  | ScanAddr _ => 1
  | ScanBoth _ _ => 2
  end.

(** A character that does not match stays in the stream. *)
Definition fscanf (inp : list token) : scanned * list token :=
  match inp with
  | [] => (ScanEOF, [])
  | Junk :: _ => (ScanNone, inp)
  | Hex a :: [] => (ScanAddr a, [])
  | Hex a :: Junk :: rest => (ScanAddr a, Junk :: rest)
  | Hex a :: Hex w :: rest => (ScanBoth a w, rest)
  end.

(** [Instruction list[1000]]: only the fields [addr] and [word] are set by
    [main]. *)
Definition capacity : Z := 1000.

Inductive outcome (A : Type) : Type :=
| Done (a : A)      (* the code ran to its end *)
| Undefined         (* a store outside [list], or [counter] overflowed *)
| Running.          (* still looping when the fuel ran out *)
Arguments Done {A} a.
Arguments Undefined {A}.
Arguments Running {A}.

(** The stores [fscanf] makes through [&list[counter].addr] and
    [&list[counter].word]. *)
Definition store (s : scanned) (counter : Z) (buf : list (Z * Z))
  : option (list (Z * Z)) :=
  match s with
  | ScanEOF | ScanNone => Some buf
  | ScanAddr a =>
      if (0 <=? counter) && (counter <? capacity)
      then Some (alter (fun e => (a, snd e)) (Z.to_nat counter) buf)
      else None
  | ScanBoth a w =>
      if (0 <=? counter) && (counter <? capacity)
      then Some (<[Z.to_nat counter := (a, w)]> buf)
      else None
  end.

(** [while (fscanf(...) != EOF) { counter++; }] *)
Fixpoint read_loop (fuel : nat) (inp : list token) (counter : Z)
    (buf : list (Z * Z)) : outcome (Z * list (Z * Z)) :=
  match fuel with
  | O => Running
  | S fuel =>
      let '(s, inp') := fscanf inp in
      match store s counter buf with
      | None => Undefined
      | Some buf' =>
          if returned s =? EOF then Done (counter, buf')
          else if counter <? INT_MAX
               then read_loop fuel inp' (counter + 1) buf'
               else Undefined
      end
  end.

(** [int main()], both files opened: the trace is read, analysed, and
    the report is produced. *)
Definition main (fuel : nat) (inp : list token) (buf : list (Z * Z))
  : outcome (list Report.line) :=
  match read_loop fuel inp 0 buf with
  | Done (counter, buf') =>
      match getStat (take (Z.to_nat counter) buf') with
      | Some stats => Done (Report.printStats stats)
      | None => Undefined
      end
  | Undefined => Undefined
  | Running => Running
  end.

(** Whether the code ran to its end. *)
Definition finished {A : Type} (o : outcome A) : bool :=
  match o with
  | Done _ => true
  | Undefined | Running => false
  end.

(** The tokens of a well-formed trace. *)
Fixpoint tokens (recs : list (Z * Z)) : list token :=
  match recs with
  | [] => []
  | rec :: rest => Hex (fst rec) :: Hex (snd rec) :: tokens rest
  end.

(** The buffer after the records [recs] were stored from index [n] on. *)
Fixpoint fill (n : nat) (recs buf : list (Z * Z)) : list (Z * Z) :=
  match recs with
  | [] => buf
  | rec :: rest => fill (S n) rest (<[n := rec]> buf)
  end.

End Reader.

(** A value that fits [uint64_t]. *)
Definition uint64_ok (z : Z) : bool := (0 <=? z) && (z <? 2 ^ 64).

(** A trace whose addresses and words all fit [uint64_t]. *)
Definition trace_ok (recs : list (Z * Z)) : bool :=
  forallb (fun rec => uint64_ok (fst rec) && uint64_ok (snd rec)) recs.

(** * Properties *)

(** ** Machine integers and bit fields *)

Section BitFields.

Lemma pow2_pos (n : Z) : 0 <= n -> 0 < 2 ^ n.
Proof. intros; apply Z.pow_pos_nonneg; lia. Qed.

Lemma to_signed_small (w z : Z) :
  0 < w -> 0 <= z < 2 ^ (w - 1) -> to_signed w z = z.
Proof.
  intros Hw Hz. unfold to_signed.
  assert (Hp : 2 ^ w = 2 * 2 ^ (w - 1)).
  { rewrite <- Z.pow_succ_r by lia. f_equal; lia. }
  rewrite Z.mod_small; lia.
Qed.

Lemma to_int_small (z : Z) : 0 <= z < 2 ^ 31 -> to_int z = z.
Proof. intros; apply to_signed_small; [lia | assumption]. Qed.

Lemma to_signed_range (w z : Z) :
  0 < w -> - 2 ^ (w - 1) <= to_signed w z < 2 ^ (w - 1).
Proof.
  intros Hw. unfold to_signed.
  assert (Hp : 2 ^ w = 2 * 2 ^ (w - 1)).
  { rewrite <- Z.pow_succ_r by lia. f_equal; lia. }
  pose proof (pow2_pos (w - 1)) as Hpos.
  pose proof (Z.mod_pos_bound (z + 2 ^ (w - 1)) (2 ^ w)). lia.
Qed.

Lemma to_int_range (z : Z) : INT_MIN <= to_int z <= INT_MAX.
Proof.
  pose proof (to_signed_range 32 z). unfold to_int, INT_MIN, INT_MAX.
  change (32 - 1) with 31 in *. lia.
Qed.

Lemma field_range (w start n : Z) : 0 <= n -> 0 <= field w start n < 2 ^ n.
Proof. intros; apply Z.mod_pos_bound, pow2_pos; assumption. Qed.

(** The mask of [bitsAt] when both shifts are defined and the field ends
    inside the word. *)
Lemma bitMask_eq (start n : Z) :
  0 <= start -> 0 <= n -> start + n <= 64 ->
  wrap64 (Z.shiftl (wrap64 (Z.shiftl 1 n - 1)) start)
  = Z.shiftl (Z.ones n) start.
Proof.
  intros Hs Hn Hsn.
  assert (Hones : Z.shiftl 1 n - 1 = Z.ones n).
  { rewrite Z.ones_equiv, Z.shiftl_1_l; lia. }
  rewrite Hones.
  assert (Hb : 0 <= Z.ones n < 2 ^ n).
  { rewrite Z.ones_equiv. pose proof (pow2_pos n Hn). lia. }
  assert (Hle : 2 ^ n * 2 ^ start <= 2 ^ 64).
  { rewrite <- Z.pow_add_r by lia. apply Z.pow_le_mono_r; lia. }
  pose proof (pow2_pos start Hs) as Hps.
  assert (H1 : wrap64 (Z.ones n) = Z.ones n).
  { unfold wrap64. apply Z.mod_small. nia. }
  rewrite H1. unfold wrap64. apply Z.mod_small.
  rewrite Z.shiftl_mul_pow2 by lia. nia.
Qed.

Lemma masked_field (w start n : Z) :
  0 <= start -> 0 <= n ->
  Z.shiftr (Z.land w (Z.shiftl (Z.ones n) start)) start = field w start n.
Proof.
  intros Hs Hn. unfold field.
  rewrite Z.shiftr_land, Z.shiftr_shiftl_l by lia.
  rewrite Z.sub_diag, Z.shiftl_0_r, Z.land_ones by lia.
  now rewrite Z.shiftr_div_pow2 by lia.
Qed.

(** [bitsAt] on a range of at most 31 bits inside the word. *)
Lemma bitsAt_field (w start end_ : Z) :
  0 <= start -> start <= end_ -> end_ <= 63 -> end_ - start + 1 <= 31 ->
  bitsAt w start end_ = Some (field w start (end_ - start + 1)).
Proof.
  intros Hs Hse He Hn. unfold bitsAt, shift_ok.
  replace (0 <=? end_ - start + 1) with true by (symmetry; lia).
  replace (end_ - start + 1 <? 64) with true by (symmetry; lia).
  replace (0 <=? start) with true by (symmetry; lia).
  replace (start <? 64) with true by (symmetry; lia).
  cbn [andb]. cbv zeta. unfold bitsAt_masked.
  rewrite bitMask_eq, masked_field by lia.
  f_equal. apply to_int_small.
  pose proof (field_range w start (end_ - start + 1)) as Hf.
  assert (2 ^ (end_ - start + 1) <= 2 ^ 31) by (apply Z.pow_le_mono_r; lia).
  lia.
Qed.

End BitFields.

(** ** Decoding *)

Section Decoding.

Lemma decode_eq (a w : Z) : decode a w = Some (decode_fields a w).
Proof.
  unfold decode. rewrite !bitsAt_field by lia. reflexivity.
Qed.

Lemma decode_total (a w : Z) : is_Some (decode a w).
Proof. rewrite decode_eq. eauto. Qed.

Lemma decode_fields_regs (a w : Z) :
  let ins := decode_fields a w in
  0 <= rs ins < 32 /\ 0 <= rt ins < 32 /\ 0 <= rd ins < 32.
Proof.
  cbn. pose proof (field_range w 21 5). pose proof (field_range w 16 5).
  pose proof (field_range w 11 5). change (2 ^ 5) with 32 in *. lia.
Qed.

Lemma decode_fields_op (a w : Z) : 0 <= op (decode_fields a w) < 64.
Proof. cbn. pose proof (field_range w 26 6). change (2 ^ 6) with 64 in *. lia. Qed.

End Decoding.

(** ** The register table *)

Section RegisterTable.

Lemma in_table_iff (row col : Z) :
  in_table row col = true <-> 0 <= row < 32 /\ 0 <= col < 2.
Proof. unfold in_table. rewrite !andb_true_iff. lia. Qed.

Lemma in_table_read (row : Z) : 0 <= row < 32 -> in_table row read = true.
Proof. intros; apply in_table_iff; unfold read; lia. Qed.

Lemma in_table_write (row : Z) : 0 <= row < 32 -> in_table row write = true.
Proof. intros; apply in_table_iff; unfold write; lia. Qed.

Lemma cell_inj (r1 c1 r2 c2 : Z) :
  in_table r1 c1 = true -> in_table r2 c2 = true ->
  cell r1 c1 = cell r2 c2 -> r1 = r2 /\ c1 = c2.
Proof. rewrite !in_table_iff. unfold cell. lia. Qed.

Lemma cell_bound (row col : Z) :
  in_table row col = true -> (cell row col < 64)%nat.
Proof. rewrite in_table_iff. unfold cell. lia. Qed.

Lemma reg_add_Some (d row col : Z) (s : Stats) :
  in_table row col = true ->
  reg_add d row col s
  = Some (set_reg (alter (Z.add d) (cell row col) (reg s)) s).
Proof. intros H. unfold reg_add. now rewrite H. Qed.

Lemma reg_add_None (d row col : Z) (s : Stats) :
  in_table row col = false -> reg_add d row col s = None.
Proof. intros H. unfold reg_add. now rewrite H. Qed.

Lemma reg_set_reg (t : list Z) (s : Stats) : reg (set_reg t s) = t.
Proof. reflexivity. Qed.

Lemma set_reg_set_reg (t t' : list Z) (s : Stats) :
  set_reg t' (set_reg t s) = set_reg t' s.
Proof. reflexivity. Qed.

(** Adding [d] to one cell changes that cell by [d] and no other. *)
Lemma tget_alter (t : list Z) (d r c row col : Z) :
  length t = 64%nat ->
  in_table r c = true -> in_table row col = true ->
  tget (alter (Z.add d) (cell r c) t) row col
  = tget t row col + (if (row =? r) && (col =? c) then d else 0).
Proof.
  intros Hlen Hrc Hrow. unfold tget.
  destruct (decide (cell r c = cell row col)) as [Heq | Hne].
  - destruct (cell_inj _ _ _ _ Hrc Hrow Heq) as [-> ->].
    rewrite !Z.eqb_refl. cbn [andb].
    rewrite list_lookup_alter_eq.
    destruct (lookup_lt_is_Some_2 t (cell row col)) as [x Hx].
    { rewrite Hlen. now apply cell_bound. }
    rewrite Hx. cbn. lia.
  - rewrite list_lookup_alter_ne by assumption.
    destruct ((row =? r) && (col =? c)) eqn:E; [| lia].
    apply andb_true_iff in E as [E1 E2].
    apply Z.eqb_eq in E1, E2. subst. contradiction.
Qed.

Lemma same_counters_refl (s : Stats) : same_counters s s.
Proof. now destruct s. Qed.

Lemma same_counters_trans (s1 s2 s3 : Stats) :
  same_counters s1 s2 -> same_counters s2 s3 -> same_counters s1 s3.
Proof. unfold same_counters. intros -> ->. reflexivity. Qed.

Lemma reg_add_same_counters (d row col : Z) (s s' : Stats) :
  reg_add d row col s = Some s' -> same_counters s s'.
Proof.
  unfold reg_add. destruct (in_table row col); [| discriminate].
  intros [= <-]. reflexivity.
Qed.

End RegisterTable.

(** ** The read/write tally *)

(** Runs the table updates whose indices are known to be in range. *)
Ltac reg_steps :=
  repeat (rewrite reg_add_Some
            by (first [ apply in_table_read | apply in_table_write ]; lia);
          cbn [mbind option_bind]).

(** Reads a cell of a table that went through a chain of updates. *)
Ltac read_cells Hlen :=
  unfold reg_get; cbn [reg set_reg];
  repeat match goal with
         | |- context [default 0 (?t !! cell ?row ?col)] =>
             change (default 0 (t !! cell row col)) with (tget t row col)
         end;
  rewrite ?tget_alter
    by (rewrite ?length_alter;
        first [ exact Hlen | assumption
              | apply in_table_read; lia | apply in_table_write; lia ]).

Section ReadWrite.

(** The tally is defined whenever the three register fields are indices
    of the table. *)
Lemma addReadWrite_total (st : Stats) (ins : Instruction) :
  0 <= rs ins < 32 -> 0 <= rt ins < 32 -> 0 <= rd ins < 32 ->
  is_Some (addReadWrite st ins).
Proof.
  intros Hrs Hrt Hrd. unfold addReadWrite, reg_incr, reg_decr.
  destruct (type ins); reg_steps;
    repeat match goal with
           | |- context [if ?b then _ else _] => destruct b; reg_steps
           end; eauto.
Qed.

Lemma addReadWrite_same_counters (st st' : Stats) (ins : Instruction) :
  addReadWrite st ins = Some st' -> same_counters st st'.
Proof.
  unfold addReadWrite, reg_incr, reg_decr. intros H.
  repeat match type of H with
         | context [match ?x with _ => _ end] => destruct x
         end;
    repeat match goal with
           | H : _ ≫= _ = Some _ |- _ =>
               apply bind_Some in H as (? & ? & H)
           | H : reg_add _ _ _ _ = Some _ |- _ =>
               apply reg_add_same_counters in H
           | H : Some _ = Some _ |- _ => injection H as <-
           end;
    eauto using same_counters_refl, same_counters_trans.
Qed.

End ReadWrite.

(** ** One iteration and the whole pass *)

Section Pass.

Lemma getStat_step_unfold (st : Stats) (prev : option Instruction) (a w : Z) :
  getStat_step (st, prev) (a, w)
  = st' ← addReadWrite (tally st (decode_fields a w)) (decode_fields a w);
    Some (branch prev (decode_fields a w) st', Some (decode_fields a w)).
Proof.
  unfold getStat_step. cbn [fst snd]. rewrite decode_eq. reflexivity.
Qed.

(** An iteration never fails, and leaves [prev] at the record it decoded. *)
Lemma getStat_step_Some (st : Stats) (prev : option Instruction) (a w : Z) :
  exists st',
    addReadWrite (tally st (decode_fields a w)) (decode_fields a w) = Some st'
    /\ getStat_step (st, prev) (a, w)
       = Some (branch prev (decode_fields a w) st', Some (decode_fields a w)).
Proof.
  destruct (decode_fields_regs a w) as (Hrs & Hrt & Hrd).
  destruct (addReadWrite_total (tally st (decode_fields a w))
              (decode_fields a w) Hrs Hrt Hrd) as [st' Hst'].
  exists st'. split; [assumption |].
  rewrite getStat_step_unfold, Hst'. reflexivity.
Qed.

Lemma getStat_loop_app (l1 l2 : list (Z * Z)) (acc : Stats * option Instruction) :
  getStat_loop (l1 ++ l2) acc = getStat_loop l1 acc ≫= getStat_loop l2.
Proof.
  revert acc. induction l1 as [| rec l1 IH]; intros acc; [reflexivity |].
  cbn [app getStat_loop]. destruct (getStat_step acc rec) as [acc' |]; cbn.
  - apply IH.
  - reflexivity.
Qed.

Lemma getStat_loop_total (recs : list (Z * Z)) (acc : Stats * option Instruction) :
  is_Some (getStat_loop recs acc).
Proof.
  revert acc. induction recs as [| [a w] recs IH]; intros [st prev];
    cbn [getStat_loop].
  - eauto.
  - destruct (getStat_step_Some st prev a w) as (st' & _ & ->). cbn. apply IH.
Qed.

(** [getStat] returns on every trace. *)
Lemma getStat_total (recs : list (Z * Z)) : is_Some (getStat recs).
Proof.
  unfold getStat. destruct (getStat_loop_total recs (stats0, None)) as [acc ->].
  cbn. eauto.
Qed.

(** After a non-empty trace, [prev] points to the last record. *)
Lemma getStat_loop_snoc (recs : list (Z * Z)) (a w : Z)
    (acc : Stats * option Instruction) :
  exists st st0 prev0,
    getStat_loop recs acc = Some (st0, prev0)
    /\ getStat_step (st0, prev0) (a, w) = Some (st, Some (decode_fields a w))
    /\ getStat_loop (recs ++ [(a, w)]) acc = Some (st, Some (decode_fields a w)).
Proof.
  destruct (getStat_loop_total recs acc) as [[st0 prev0] H0].
  destruct (getStat_step_Some st0 prev0 a w) as (st' & _ & Hstep).
  eexists _, st0, prev0. split; [exact H0 |]. split; [exact Hstep |].
  rewrite getStat_loop_app, H0. cbn [mbind option_bind getStat_loop].
  rewrite Hstep. reflexivity.
Qed.

(** Invariants of the accumulator. *)
Section Invariant.
Variable P : Stats -> Prop.
Hypothesis P_step :
  forall st prev rec st' prev',
    P st -> getStat_step (st, prev) rec = Some (st', prev') -> P st'.

Lemma getStat_loop_invariant (recs : list (Z * Z))
    (acc acc' : Stats * option Instruction) :
  P (fst acc) -> getStat_loop recs acc = Some acc' -> P (fst acc').
Proof.
  revert acc. induction recs as [| rec recs IH]; intros [st prev] HP H.
  - injection H as <-. exact HP.
  - cbn [getStat_loop] in H.
    apply bind_Some in H as ([st1 prev1] & Hstep & Hrest).
    apply (IH (st1, prev1)); [| exact Hrest].
    cbn. eapply P_step; eauto.
Qed.

Lemma getStat_invariant (recs : list (Z * Z)) (st : Stats) :
  P stats0 -> getStat recs = Some st -> P st.
Proof.
  unfold getStat. intros HP H.
  apply fmap_Some in H as (acc' & Hloop & ->).
  eapply (getStat_loop_invariant recs (stats0, None)); eauto.
Qed.
End Invariant.

End Pass.

(** * The claims *)

(** ** Bit fields and formats *)

(** C2 (as stated, refuted): on the full range 0..63 [bitsAt] does not return
    the word [2^32]: the mask needs a shift by 64, which is not defined,
    and whatever mask that shift leaves, the result is converted to [int],
    which cannot hold [2^32]. *)
Lemma bitsAt_full_range_counterexample :
  bitsAt (2 ^ 32) 0 63 <> Some (2 ^ 32)
  /\ forall bitMask, bitsAt_masked (2 ^ 32) bitMask 0 <> 2 ^ 32.
Proof.
  split; [discriminate |].
  intros bitMask H. unfold bitsAt_masked in H.
  pose proof (to_int_range (Z.shiftr (Z.land (2 ^ 32) bitMask) 0)) as Hr.
  rewrite H in Hr. unfold INT_MAX in Hr. lia.
Qed.

(** C2 (amended): for every 64-bit word and every range [start..end_] inside
    the word that is at most 31 bits wide, [bitsAt] returns exactly the bits
    [start..end_] of the word, moved to position 0. *)
Theorem bitsAt_range_exact (w start end_ : Z) :
  0 <= w < 2 ^ 64 ->
  0 <= start -> start <= end_ -> end_ <= 63 -> end_ - start + 1 <= 31 ->
  bitsAt w start end_ = Some ((w / 2 ^ start) mod 2 ^ (end_ - start + 1)).
Proof. intros _ Hs Hse He Hn. now rewrite bitsAt_field. Qed.

Lemma bitsAt_range_exact_witness :
  bitsAt 0x0C220000 21 25 = Some ((0x0C220000 / 2 ^ 21) mod 2 ^ (25 - 21 + 1)).
Proof. apply bitsAt_range_exact; lia. Defined.

(** C7: [getOp] assigns exactly one format to every opcode: [r] to 0x00
    and to no other, [j] to 0x02 and 0x03 and to no other, [i] to all the
    rest. *)
Theorem getOp_partition (opc : Z) :
  (getOp opc = r <-> opc = 0x00)
  /\ (getOp opc = j <-> opc = 0x02 \/ opc = 0x03)
  /\ (getOp opc = i <-> opc <> 0x00 /\ opc <> 0x02 /\ opc <> 0x03).
Proof.
  unfold getOp.
  destruct (Z.eqb_spec opc 0x00), (Z.eqb_spec opc 0x02), (Z.eqb_spec opc 0x03);
    cbn [orb]; repeat split; intros; try discriminate; try lia.
Qed.

(** ** The counters of one iteration *)

Section Counters.

Ltac case_conditions :=
  repeat match goal with
         | |- context [if ?b then _ else _] => destruct b
         end.

(** What the calls before [addReadWrite] do to the counters. *)
Lemma tally_counters (st : Stats) (ins : Instruction) :
  insts (tally st ins) = insts st + 1
  /\ rType (tally st ins) + iType (tally st ins) + jType (tally st ins)
     = rType st + iType st + jType st + 1
  /\ (fwdTaken (tally st ins), bkwTaken (tally st ins), notTaken (tally st ins))
     = (fwdTaken st, bkwTaken st, notTaken st)
  /\ loads (tally st ins)
     = loads st + (if mem (op ins) load_ops then 1 else 0)
  /\ stores (tally st ins)
     = stores st + (if mem (op ins) load_ops then 0
                    else if mem (op ins) store_ops then 1 else 0)
  /\ reg (tally st ins) = reg st.
Proof.
  unfold tally, addArith, addToLoad, addType.
  destruct (type ins); case_conditions; cbn; repeat split; lia.
Qed.

(** [addBranchCount] touches the three branch counters only. *)
Lemma branch_counters (prev : option Instruction) (ins : Instruction) (st : Stats) :
  insts (branch prev ins st) = insts st
  /\ rType (branch prev ins st) = rType st
  /\ iType (branch prev ins st) = iType st
  /\ jType (branch prev ins st) = jType st
  /\ loads (branch prev ins st) = loads st
  /\ stores (branch prev ins st) = stores st
  /\ arith (branch prev ins st) = arith st
  /\ reg (branch prev ins st) = reg st.
Proof.
  unfold branch, addBranchCount.
  destruct prev; case_conditions; cbn; repeat split; reflexivity.
Qed.

(** The shape of the accumulator after one iteration. *)
Lemma getStat_step_shape (st st' : Stats) (prev prev' : option Instruction)
    (a w : Z) :
  getStat_step (st, prev) (a, w) = Some (st', prev') ->
  exists st1,
    same_counters (tally st (decode_fields a w)) st1
    /\ st' = branch prev (decode_fields a w) st1
    /\ prev' = Some (decode_fields a w).
Proof.
  rewrite getStat_step_unfold. intros H.
  apply bind_Some in H as (st1 & Hrw & [= <- <-]).
  exists st1. split; [| split; reflexivity].
  eapply addReadWrite_same_counters; eassumption.
Qed.

Lemma getStat_step_insts (st st' : Stats) (prev prev' : option Instruction)
    (rec : Z * Z) :
  getStat_step (st, prev) rec = Some (st', prev') ->
  insts st' = insts st + 1
  /\ rType st' + iType st' + jType st' = rType st + iType st + jType st + 1.
Proof.
  destruct rec as [a w]. intros H.
  apply getStat_step_shape in H as (st1 & Hsame & -> & _).
  destruct (branch_counters prev (decode_fields a w) st1)
    as (-> & -> & -> & -> & _).
  destruct (tally_counters st (decode_fields a w)) as (Hi & Ht & _).
  unfold same_counters in Hsame. rewrite Hsame. cbn. lia.
Qed.

End Counters.

(** C6: after [getStat] has folded any trace, the instruction count is the
    sum of the three format counts. *)
Theorem getStat_type_sum (recs : list (Z * Z)) :
  exists st,
    getStat recs = Some st
    /\ insts st = rType st + iType st + jType st.
Proof.
  destruct (getStat_total recs) as [st Hst]. exists st. split; [assumption |].
  apply (getStat_invariant
           (fun s => insts s = rType s + iType s + jType s)) with (recs := recs);
    [| reflexivity | assumption].
  intros s prev rec s' prev' HP Hstep.
  apply getStat_step_insts in Hstep. lia.
Qed.

(** C8: one iteration of the analysis adds one to [loads] exactly for the
    opcodes 0x20, 0x21, 0x23, 0x24, 0x25, adds one to [stores] exactly for
    the opcodes 0x28, 0x29, 0x2b, and changes neither counter for any other
    opcode. *)
Theorem load_store_tally (st : Stats) (prev : option Instruction) (a w : Z) :
  exists st' prev',
    getStat_step (st, prev) (a, w) = Some (st', prev')
    /\ loads st'
       = loads st
         + (if mem (field w 26 6) [0x20; 0x21; 0x23; 0x24; 0x25] then 1 else 0)
    /\ stores st'
       = stores st + (if mem (field w 26 6) [0x28; 0x29; 0x2b] then 1 else 0).
Proof.
  destruct (getStat_step_Some st prev a w) as (st1 & Hrw & Hstep).
  eexists _, _. split; [exact Hstep |].
  apply addReadWrite_same_counters in Hrw.
  destruct (branch_counters prev (decode_fields a w) st1)
    as (_ & _ & _ & _ & -> & -> & _).
  destruct (tally_counters st (decode_fields a w)) as (_ & _ & _ & Hl & Hs & _).
  unfold same_counters in Hrw. rewrite Hrw. cbn [loads stores set_reg].
  rewrite Hl, Hs. cbn [op decode_fields].
  generalize (field w 26 6). intros opc.
  unfold mem, load_ops, store_ops. cbn [existsb].
  repeat match goal with
         | |- context [Z.eqb opc ?c] =>
             destruct (Z.eqb_spec opc c); [subst opc; cbn; lia |]
         end.
  cbn. lia.
Qed.

(** ** Branch outcomes *)

Section Branches.

(** For addresses below [2^63] the difference is the exact one. *)
Lemma addr_diff_exact (prevAddr inAddr : Z) :
  0 <= prevAddr < 2 ^ 63 -> 0 <= inAddr < 2 ^ 63 ->
  addr_diff (to_long prevAddr) (to_long inAddr) = inAddr - prevAddr.
Proof.
  intros Hp Hi. unfold addr_diff, to_long.
  rewrite (to_signed_small 64 prevAddr), (to_signed_small 64 inAddr)
    by (change (64 - 1) with 63; lia).
  unfold to_signed. change (64 - 1) with 63.
  assert (H64 : 2 ^ 64 = 2 * 2 ^ 63) by reflexivity.
  rewrite Z.mod_small; lia.
Qed.

(** A conversion to a signed type changes its argument by a multiple of
    [2^w]. *)
Lemma to_signed_mod (w z : Z) :
  0 < w -> exists k, to_signed w z = z + k * 2 ^ w.
Proof.
  intros Hw. unfold to_signed. pose proof (pow2_pos w) as Hpos.
  exists (- ((z + 2 ^ (w - 1)) / 2 ^ w)).
  rewrite Z.mod_eq by lia. lia.
Qed.

Lemma to_signed_shift (w z k : Z) : to_signed w (z + k * 2 ^ w) = to_signed w z.
Proof.
  unfold to_signed.
  replace (z + k * 2 ^ w + 2 ^ (w - 1)) with (z + 2 ^ (w - 1) + k * 2 ^ w) by lia.
  now rewrite Z_mod_plus_full.
Qed.

(** The difference the code computes is the current address minus the
    previous one, converted to [long]. *)
Lemma addr_diff_to_long (prevAddr inAddr : Z) :
  addr_diff (to_long prevAddr) (to_long inAddr) = to_long (inAddr - prevAddr).
Proof.
  unfold addr_diff, to_long.
  destruct (to_signed_mod 64 prevAddr) as [kp ->]; [lia |].
  destruct (to_signed_mod 64 inAddr) as [ki ->]; [lia |].
  replace (inAddr + ki * 2 ^ 64 - (prevAddr + kp * 2 ^ 64))
    with (inAddr - prevAddr + (ki - kp) * 2 ^ 64) by lia.
  apply to_signed_shift.
Qed.

Lemma to_long_difference (prevAddr inAddr : Z) :
  0 <= prevAddr < 2 ^ 63 -> 0 <= inAddr < 2 ^ 63 ->
  to_long (inAddr - prevAddr) = inAddr - prevAddr.
Proof.
  intros Hp Hi. rewrite <- addr_diff_to_long. now apply addr_diff_exact.
Qed.

Lemma getStat_step_branch (st st' : Stats) (prev prev' : option Instruction)
    (a w : Z) :
  getStat_step (st, prev) (a, w) = Some (st', prev') ->
  (fwdTaken st', bkwTaken st', notTaken st')
  = match prev with
    | Some p =>
        classifyBranch (addr_diff (to_long (addr p)) (to_long a)) (op p)
                       (fwdTaken st, bkwTaken st, notTaken st)
    | None => (fwdTaken st, bkwTaken st, notTaken st)
    end.
Proof.
  intros H. apply getStat_step_shape in H as (st1 & Hsame & -> & _).
  destruct (tally_counters st (decode_fields a w)) as (_ & _ & Hb & _).
  unfold same_counters in Hsame.
  assert (Hst1 : (fwdTaken st1, bkwTaken st1, notTaken st1)
                 = (fwdTaken st, bkwTaken st, notTaken st)).
  { rewrite Hsame. exact Hb. }
  injection Hst1 as Hf Hk Hn.
  unfold branch, classifyBranch, addBranchCount. cbn [addr decode_fields].
  destruct prev as [p |]; [| congruence].
  rewrite (Z.gtb_ltb (addr_diff _ _) 4).
  repeat match goal with
         | |- context [if ?b then _ else _] => destruct b
         end; cbn; congruence.
Qed.

End Branches.

(** C4: for consecutive records [(pa, pw)] and [(ca, cw)] of a trace, with
    [diff] the current address [ca] minus the previous address [pa] as a
    signed 64-bit number, the analysis adds one to forward-taken when
    [diff > 4], else one to backward-taken when [diff < 0], else one to
    not-taken when the opcode of the first is 0x04 or 0x05, and otherwise
    changes none of the three; for addresses below [2^63] the signed
    difference is [ca - pa] itself.  A trace of one record has all three
    counters at zero. *)
Theorem branch_classification (recs : list (Z * Z)) (pa pw ca cw : Z) :
  (exists s s',
      getStat (recs ++ [(pa, pw)]) = Some s
      /\ getStat (recs ++ [(pa, pw); (ca, cw)]) = Some s'
      /\ (fwdTaken s', bkwTaken s', notTaken s')
         = classifyBranch (to_long (ca - pa)) (field pw 26 6)
                          (fwdTaken s, bkwTaken s, notTaken s)
      /\ (0 <= pa < 2 ^ 63 -> 0 <= ca < 2 ^ 63 ->
          (fwdTaken s', bkwTaken s', notTaken s')
          = classifyBranch (ca - pa) (field pw 26 6)
                           (fwdTaken s, bkwTaken s, notTaken s)))
  /\ (exists s1,
         getStat [(ca, cw)] = Some s1
         /\ (fwdTaken s1, bkwTaken s1, notTaken s1) = (0, 0, 0)).
Proof.
  split.
  - destruct (getStat_loop_snoc recs pa pw (stats0, None))
      as (s & s0 & p0 & _ & _ & Hloop).
    destruct (getStat_step_Some s (Some (decode_fields pa pw)) ca cw)
      as (s1 & _ & Hstep).
    assert (Hrule : (fwdTaken (branch (Some (decode_fields pa pw))
                                      (decode_fields ca cw) s1),
                     bkwTaken (branch (Some (decode_fields pa pw))
                                      (decode_fields ca cw) s1),
                     notTaken (branch (Some (decode_fields pa pw))
                                      (decode_fields ca cw) s1))
                    = classifyBranch (to_long (ca - pa)) (field pw 26 6)
                                     (fwdTaken s, bkwTaken s, notTaken s)).
    { pose proof (getStat_step_branch _ _ _ _ _ _ Hstep) as Hb.
      cbn [addr op decode_fields] in Hb.
      now rewrite addr_diff_to_long in Hb. }
    eexists s, _. split; [| split; [| split]].
    + unfold getStat. rewrite Hloop. reflexivity.
    + unfold getStat.
      replace (recs ++ [(pa, pw); (ca, cw)])
        with ((recs ++ [(pa, pw)]) ++ [(ca, cw)])
        by (rewrite <- app_assoc; reflexivity).
      rewrite getStat_loop_app, Hloop. cbn [mbind option_bind getStat_loop].
      rewrite Hstep. reflexivity.
    + exact Hrule.
    + intros Hp Hc. rewrite <- (to_long_difference pa ca Hp Hc). exact Hrule.
  - destruct (getStat_step_Some stats0 None ca cw) as (s1 & _ & Hstep).
    eexists. split.
    + unfold getStat. cbn [getStat_loop]. rewrite Hstep. reflexivity.
    + apply getStat_step_branch in Hstep. exact Hstep.
Qed.

(** The rule at the addresses 0x1000 and 0x1010, both below [2^63]: the
    difference is 0x10. *)
Lemma branch_classification_witness :
  exists s s',
    getStat ([] ++ [(0x1000, 0x10000000)]) = Some s
    /\ getStat ([] ++ [(0x1000, 0x10000000); (0x1010, 0x00430820)]) = Some s'
    /\ (fwdTaken s', bkwTaken s', notTaken s')
       = classifyBranch (0x1010 - 0x1000) (field 0x10000000 26 6)
                        (fwdTaken s, bkwTaken s, notTaken s).
Proof.
  destruct (branch_classification [] 0x1000 0x10000000 0x1010 0x00430820)
    as [(s & s' & H1 & H2 & _ & H3) _].
  exists s, s'. split; [exact H1 |]. split; [exact H2 |]. apply H3; lia.
Defined.

(** ** Register reads and writes *)

Section RegisterEffects.

Ltac case_cells :=
  unfold read, write in *;
  repeat match goal with
         | |- context [Z.eqb ?x ?y] => destruct (Z.eqb_spec x y)
         end;
  cbn [andb]; try lia.

(** What [addReadWrite] does for [jal]: one write to register 31, and the
    counts of an [rt] write and an [rs] read lowered by one each. *)
Lemma jal_net_effect (st : Stats) (ins : Instruction) :
  length (reg st) = 64%nat ->
  0 <= rs ins < 32 -> 0 <= rt ins < 32 ->
  type ins = j -> op ins = 0x03 ->
  exists st',
    addReadWrite st ins = Some st'
    /\ forall row col,
        in_table row col = true ->
        reg_get st' row col
        = reg_get st row col
          + (if (row =? 31) && (col =? write) then 1 else 0)
          - (if (row =? rt ins) && (col =? write) then 1 else 0)
          - (if (row =? rs ins) && (col =? read) then 1 else 0).
Proof.
  intros Hlen Hrs Hrt Hty Hop. unfold addReadWrite, reg_incr, reg_decr.
  rewrite Hty, Hop. cbn [Z.eqb Pos.eqb]. reg_steps.
  eexists. split; [reflexivity |].
  intros row col Hin. read_cells Hlen. case_cells.
Qed.

Lemma jr_net_effect (st : Stats) (ins : Instruction) :
  length (reg st) = 64%nat ->
  0 <= rs ins < 32 -> 0 <= rt ins < 32 -> 0 <= rd ins < 32 ->
  type ins = r -> funct ins = 0x08 ->
  exists st',
    addReadWrite st ins = Some st'
    /\ forall row col,
        in_table row col = true ->
        reg_get st' row col
        = reg_get st row col
          + (if (row =? rs ins) && (col =? read) then 1 else 0).
Proof.
  intros Hlen Hrs Hrt Hrd Hty Hf. unfold addReadWrite, reg_incr, reg_decr.
  rewrite Hty, Hf. cbn [Z.eqb Pos.eqb]. reg_steps.
  eexists. split; [reflexivity |].
  intros row col Hin. read_cells Hlen. case_cells.
Qed.

(** Whatever the instruction, the tally keeps the table at 64 cells and
    moves no cell by more than two up or one down. *)
Lemma addReadWrite_cells (st : Stats) (ins : Instruction) :
  length (reg st) = 64%nat ->
  0 <= rs ins < 32 -> 0 <= rt ins < 32 -> 0 <= rd ins < 32 ->
  exists st',
    addReadWrite st ins = Some st'
    /\ length (reg st') = 64%nat
    /\ forall row col,
        in_table row col = true ->
        reg_get st row col - 1 <= reg_get st' row col <= reg_get st row col + 2.
Proof.
  intros Hlen Hrs Hrt Hrd. unfold addReadWrite, reg_incr, reg_decr.
  destruct (type ins); reg_steps;
    repeat match goal with
           | |- context [if ?b then _ else _] => destruct b; reg_steps
           end;
    (eexists; split; [reflexivity |]; split;
     [ cbn [reg set_reg]; rewrite ?length_alter; exact Hlen
     | intros row col Hin; read_cells Hlen; case_cells ]).
Qed.

End RegisterEffects.

(** C9: for a decoded instruction with opcode 0x00 and function code 0x08
    ([jr]), the read/write tally raises the read count of [rs] by one and
    leaves every other cell of the table as it was: no write of [rd] and no
    read of [rt] remains. *)
Theorem jr_read_write (st : Stats) (a w : Z) (ins : Instruction) :
  length (reg st) = 64%nat ->
  decode a w = Some ins -> op ins = 0x00 -> funct ins = 0x08 ->
  exists st',
    addReadWrite st ins = Some st'
    /\ forall row col,
        in_table row col = true ->
        reg_get st' row col
        = reg_get st row col + (if (row =? rs ins) && (col =? read) then 1 else 0).
Proof.
  intros Hlen Hdec Hop Hf. rewrite decode_eq in Hdec. injection Hdec as <-.
  destruct (decode_fields_regs a w) as (Hrs & Hrt & Hrd).
  apply jr_net_effect; try assumption.
  change (type (decode_fields a w)) with (getOp (op (decode_fields a w))).
  now rewrite Hop.
Qed.

Lemma jr_read_write_witness :
  exists st',
    addReadWrite stats0 (decode_fields 0x2000 0x03e00008) = Some st'
    /\ forall row col,
        in_table row col = true ->
        reg_get st' row col
        = reg_get stats0 row col
          + (if (row =? rs (decode_fields 0x2000 0x03e00008)) && (col =? read)
             then 1 else 0).
Proof.
  apply (jr_read_write stats0 0x2000 0x03e00008); reflexivity.
Defined.

(** C1 (the code at a [jal]): the trace of the single instruction
    [jal 0x880000] (word 0x0C220000, whose bits 21..25 are 1 and bits
    16..20 are 2) ends with one write of register 31, a read count of -1
    for register 1 and a write count of -1 for register 2. *)
Theorem jal_lowers_rs_rt_counts :
  exists st,
    getStat [(0x00400000, 0x0C220000)] = Some st
    /\ reg_get st 31 write = 1
    /\ reg_get st 1 read = -1
    /\ reg_get st 2 write = -1.
Proof. eexists. split; [vm_compute; reflexivity |]. repeat split. Qed.

(** C10: every word decodes to register fields [rs], [rt], [rd] in 0..31,
    register 31 is an index of the table, and the read/write tally of the
    decoded instruction makes no access outside the table. *)
Theorem register_accesses_in_bounds (st : Stats) (a w : Z) :
  exists ins st',
    decode a w = Some ins
    /\ (0 <= rs ins < 32 /\ 0 <= rt ins < 32 /\ 0 <= rd ins < 32)
    /\ in_table 31 write = true
    /\ addReadWrite st ins = Some st'.
Proof.
  destruct (decode_fields_regs a w) as (Hrs & Hrt & Hrd).
  destruct (addReadWrite_total st (decode_fields a w) Hrs Hrt Hrd) as [st' H].
  exists (decode_fields a w), st'.
  split; [apply decode_eq |]. split; [auto |]. split; [reflexivity | exact H].
Qed.

(** The bounds check of the embedding is live: a record whose [rd] is 32
    makes the tally fail. *)
Example addReadWrite_outside_table :
  addReadWrite stats0 (mkInstruction 0 0 0 0 0 32 0 0x20 0 0 r) = None.
Proof. reflexivity. Qed.

(** ** The report of an empty trace *)

Section EmptyTrace.

Import Report.

(** Every percentage line divides by the instruction count. *)
Lemma pct_divisors (st : Stats) :
  Forall (fun cd => snd cd = insts st) (pct_operands st).
Proof. unfold pct_operands, pct_counters. repeat constructor. Qed.


End EmptyTrace.


(** ** Reading the trace *)

Section Reading.

Import Reader.

(** Once the next token is not a number, the loop cannot leave: every call
    of [fscanf] returns 0, which is not [EOF], and consumes nothing. *)
Lemma read_loop_stuck (fuel : nat) (rest : list token) (counter : Z)
    (buf : list (Z * Z)) :
  finished (read_loop fuel (Junk :: rest) counter buf) = false.
Proof.
  revert counter. induction fuel as [| fuel IH]; intros counter; [reflexivity |].
  cbn [read_loop fscanf store returned]. change (0 =? EOF) with false.
  cbn match. destruct (counter <? INT_MAX); [apply IH | reflexivity].
Qed.

(** The same after an address that is followed by no word. *)
Lemma read_loop_stuck_word (fuel : nat) (a : Z) (rest : list token)
    (counter : Z) (buf : list (Z * Z)) :
  finished (read_loop fuel (Hex a :: Junk :: rest) counter buf) = false.
Proof.
  destruct fuel as [| fuel]; [reflexivity |].
  cbn [read_loop fscanf store returned].
  destruct ((0 <=? counter) && (counter <? capacity)); [| reflexivity].
  change (1 =? EOF) with false. cbn match.
  destruct (counter <? INT_MAX); [apply read_loop_stuck | reflexivity].
Qed.

(** Well-formed records before the malformed one do not help. *)
Section Prefix.
Variable sfx : list token.
Hypothesis sfx_stuck :
  forall fuel counter buf, finished (read_loop fuel sfx counter buf) = false.

Lemma read_loop_prefix (recs : list (Z * Z)) (fuel : nat) (counter : Z)
    (buf : list (Z * Z)) :
  finished (read_loop fuel (tokens recs ++ sfx) counter buf) = false.
Proof.
  revert fuel counter buf.
  induction recs as [| [a w] recs IH]; intros fuel counter buf.
  - apply sfx_stuck.
  - destruct fuel as [| fuel]; [reflexivity |].
    cbn [tokens app fst snd read_loop fscanf store returned].
    destruct ((0 <=? counter) && (counter <? capacity)); [| reflexivity].
    change (2 =? EOF) with false. cbn match.
    destruct (counter <? INT_MAX); [apply IH | reflexivity].
Qed.
End Prefix.

Lemma main_unfinished (fuel : nat) (inp : list token) (buf : list (Z * Z)) :
  finished (read_loop fuel inp 0 buf) = false ->
  finished (main fuel inp buf) = false.
Proof.
  unfold main. destruct (read_loop fuel inp 0 buf) as [[c b] | |];
    [discriminate | reflexivity | reflexivity].
Qed.

(** A well-formed trace that fits the buffer is read to its end. *)
Lemma read_loop_wellformed (recs : list (Z * Z)) (counter : Z)
    (buf : list (Z * Z)) :
  0 <= counter -> counter + Z.of_nat (length recs) <= capacity ->
  read_loop (S (length recs)) (tokens recs) counter buf
  = Done (counter + Z.of_nat (length recs), fill (Z.to_nat counter) recs buf).
Proof.
  revert counter buf. induction recs as [| [a w] recs IH]; intros counter buf Hc Hn.
  - cbn. now rewrite Z.add_0_r.
  - cbn [length] in *.
    change (read_loop (S (S (length recs))) (tokens ((a, w) :: recs)) counter buf)
      with (let '(s, inp') := fscanf (Hex a :: Hex w :: tokens recs) in
            match store s counter buf with
            | None => Undefined
            | Some buf' =>
                if returned s =? EOF then Done (counter, buf')
                else if counter <? INT_MAX
                     then read_loop (S (length recs)) inp' (counter + 1) buf'
                     else Undefined
            end).
    cbn [fscanf store returned]. unfold capacity in *.
    replace ((0 <=? counter) && (counter <? 1000)) with true
      by (symmetry; apply andb_true_iff; lia).
    change (2 =? EOF) with false. cbn match.
    replace (counter <? INT_MAX) with true by (symmetry; unfold INT_MAX; lia).
    rewrite IH by lia. cbn [fill].
    replace (Z.to_nat (counter + 1)) with (S (Z.to_nat counter)) by lia.
    f_equal. f_equal. lia.
Qed.

Lemma fill_eq (recs buf : list (Z * Z)) (n : nat) :
  (n + length recs <= length buf)%nat ->
  fill n recs buf = take n buf ++ recs ++ drop (n + length recs) buf.
Proof.
  revert n buf. induction recs as [| rec recs IH]; intros n buf Hlen.
  - cbn. rewrite Nat.add_0_r. symmetry. apply take_drop.
  - cbn [fill length] in *. rewrite IH by (rewrite length_insert; lia).
    rewrite (take_S_r _ _ rec) by (apply list_lookup_insert_eq; lia).
    rewrite take_insert_ge by lia.
    rewrite drop_insert_lt by lia.
    replace (S n + length recs)%nat with (n + S (length recs))%nat by lia.
    now rewrite <- app_assoc.
Qed.

Lemma take_fill (recs buf : list (Z * Z)) :
  (length recs <= length buf)%nat ->
  take (length recs) (fill 0 recs buf) = recs.
Proof.
  intros Hlen. rewrite fill_eq by (cbn; lia). rewrite take_0. cbn [app].
  apply take_app_length.
Qed.

(** On a well-formed trace of at most 1000 records [main] analyses exactly
    the records of the trace. *)
Lemma main_wellformed (recs buf : list (Z * Z)) :
  Z.of_nat (length recs) <= capacity -> length buf = 1000%nat ->
  exists st,
    getStat recs = Some st
    /\ main (S (length recs)) (tokens recs) buf = Done (Report.printStats st).
Proof.
  intros Hn Hbuf. destruct (getStat_total recs) as [st Hst].
  exists st. split; [assumption |].
  unfold main. rewrite read_loop_wellformed by lia.
  rewrite Z.add_0_l, Nat2Z.id. change (Z.to_nat 0) with 0%nat.
  rewrite take_fill by (unfold capacity in Hn; lia).
  now rewrite Hst.
Qed.

End Reading.

(** C3 (the code at a malformed record): when the first [k] pairs of the
    input are numbers and the next token is not, the reading loop of
    [main] does not stop: with any amount of fuel, [main] is still looping
    or has left the buffer, and never reaches the analysis of the first
    [k] records.  The same holds when the token after an address is
    malformed. *)
Theorem main_loops_on_malformed_record (recs : list (Z * Z)) (a : Z)
    (rest : list Reader.token) (fuel : nat) (buf : list (Z * Z)) :
  Reader.finished
    (Reader.main fuel (Reader.tokens recs ++ Reader.Junk :: rest) buf) = false
  /\ Reader.finished
       (Reader.main fuel
          (Reader.tokens recs ++ Reader.Hex a :: Reader.Junk :: rest) buf)
     = false.
Proof.
  split; apply main_unfinished, read_loop_prefix; intros.
  - apply read_loop_stuck.
  - apply read_loop_stuck_word.
Qed.

(** ** The counters stay inside [int] *)

Section IntRange.

Ltac case_conditions :=
  repeat match goal with
         | |- context [if ?b then _ else _] => destruct b
         end.

Lemma tally_bounds (st : Stats) (ins : Instruction) :
  insts st <= insts (tally st ins) <= insts st + 1
  /\ rType st <= rType (tally st ins) <= rType st + 1
  /\ iType st <= iType (tally st ins) <= iType st + 1
  /\ jType st <= jType (tally st ins) <= jType st + 1
  /\ loads st <= loads (tally st ins) <= loads st + 1
  /\ stores st <= stores (tally st ins) <= stores st + 1
  /\ arith st <= arith (tally st ins) <= arith st + 1.
Proof.
  unfold tally, addArith, addToLoad, addType.
  destruct (type ins); case_conditions; cbn; lia.
Qed.

Lemma branch_bounds (prev : option Instruction) (ins : Instruction) (st : Stats) :
  fwdTaken st <= fwdTaken (branch prev ins st) <= fwdTaken st + 1
  /\ bkwTaken st <= bkwTaken (branch prev ins st) <= bkwTaken st + 1
  /\ notTaken st <= notTaken (branch prev ins st) <= notTaken st + 1.
Proof.
  unfold branch, addBranchCount.
  destruct prev; case_conditions; cbn; lia.
Qed.

Lemma getStat_step_within (n : Z) (st st' : Stats)
    (prev prev' : option Instruction) (rec : Z * Z) :
  counters_within n st ->
  getStat_step (st, prev) rec = Some (st', prev') ->
  counters_within (n + 1) st'.
Proof.
  destruct rec as [a w]. intros (Hs & Hb & Hlen & Hcells) Hstep.
  rewrite getStat_step_unfold in Hstep.
  apply bind_Some in Hstep as (st1 & Hrw & [= <- <-]).
  set (ins := decode_fields a w) in *.
  destruct (decode_fields_regs a w) as (Hrs & Hrt & Hrd). fold ins in Hrs, Hrt, Hrd.
  destruct (tally_counters st ins) as (_ & _ & Htb & _ & _ & Htreg).
  assert (Hlen' : length (reg (tally st ins)) = 64%nat) by now rewrite Htreg.
  destruct (addReadWrite_cells (tally st ins) ins Hlen' Hrs Hrt Hrd)
    as (st1' & Hrw' & Hlen1 & Hcells1).
  rewrite Hrw in Hrw'. injection Hrw' as <-.
  pose proof (addReadWrite_same_counters _ _ _ Hrw) as Hsame.
  unfold same_counters in Hsame.
  destruct (branch_counters prev ins st1)
    as (Hi & Hr & Hit & Hj & Hl & Hst & Ha & Hreg).
  pose proof (branch_bounds prev ins st1) as Hbb.
  pose proof (tally_bounds st ins) as Htl.
  assert (Hst1 : insts st1 = insts (tally st ins)
                 /\ rType st1 = rType (tally st ins)
                 /\ iType st1 = iType (tally st ins)
                 /\ jType st1 = jType (tally st ins)
                 /\ loads st1 = loads (tally st ins)
                 /\ stores st1 = stores (tally st ins)
                 /\ arith st1 = arith (tally st ins)
                 /\ fwdTaken st1 = fwdTaken (tally st ins)
                 /\ bkwTaken st1 = bkwTaken (tally st ins)
                 /\ notTaken st1 = notTaken (tally st ins)).
  { rewrite Hsame. cbn. repeat split. }
  injection Htb as Hf Hk Hn.
  unfold counters_within. rewrite Hi, Hr, Hit, Hj, Hl, Hst, Ha.
  split; [lia |]. split; [lia |]. split; [now rewrite Hreg |].
  intros row col Hin. unfold reg_get. rewrite Hreg.
  specialize (Hcells1 row col Hin). specialize (Hcells row col Hin).
  unfold reg_get in *. rewrite Htreg in Hcells1. lia.
Qed.

Lemma getStat_loop_within (recs : list (Z * Z)) (n : Z)
    (acc acc' : Stats * option Instruction) :
  counters_within n (fst acc) ->
  getStat_loop recs acc = Some acc' ->
  counters_within (n + Z.of_nat (length recs)) (fst acc').
Proof.
  revert n acc. induction recs as [| rec recs IH]; intros n [st prev] Hw H.
  - injection H as <-. cbn [length]. now rewrite Z.add_0_r.
  - cbn [getStat_loop] in H.
    apply bind_Some in H as ([st1 prev1] & Hstep & Hrest).
    apply (getStat_step_within n) in Hstep; [| exact Hw].
    apply (IH (n + 1) (st1, prev1) Hstep) in Hrest.
    cbn [length]. replace (n + Z.of_nat (S (length recs)))
      with (n + 1 + Z.of_nat (length recs)) by lia.
    exact Hrest.
Qed.

Lemma stats0_within : counters_within 0 stats0.
Proof.
  unfold counters_within. cbn. repeat split; try lia.
  - unfold reg_get. cbn [reg stats0].
    destruct (replicate 64 0 !! cell row col) as [x |] eqn:E; cbn; [| lia].
    apply lookup_replicate in E as [-> _]. lia.
  - unfold reg_get. cbn [reg stats0].
    destruct (replicate 64 0 !! cell row col) as [x |] eqn:E; cbn; [| lia].
    apply lookup_replicate in E as [-> _]. lia.
Qed.

(** After a trace of [n] records every counter is in [[0, n]] and every
    cell of the table in [[-n, 2 n]]. *)
Lemma getStat_counters_within (recs : list (Z * Z)) (st : Stats) :
  getStat recs = Some st -> counters_within (Z.of_nat (length recs)) st.
Proof.
  unfold getStat. intros H. apply fmap_Some in H as (acc' & Hloop & ->).
  apply (getStat_loop_within recs 0 (stats0, None)) in Hloop.
  - exact Hloop.
  - exact stats0_within.
Qed.

(** For every trace that fits the 1000-entry buffer of [main], all the
    [int] objects of the result are inside the range of [int]. *)
Lemma getStat_counters_fit_int (recs : list (Z * Z)) (st : Stats) :
  Z.of_nat (length recs) <= 1000 ->
  getStat recs = Some st ->
  Forall (fun c => INT_MIN <= c <= INT_MAX) (ints_of st).
Proof.
  intros Hn Hst. apply getStat_counters_within in Hst.
  destruct Hst as (Hs & Hb & Hlen & Hcells).
  unfold ints_of, INT_MIN, INT_MAX. apply Forall_app. split.
  - repeat constructor; lia.
  - apply Forall_lookup. intros k x Hk.
    assert (Hlt : (k < 64)%nat).
    { rewrite <- Hlen. eapply lookup_lt_Some; eassumption. }
    assert (Hin : in_table (Z.of_nat k / 2) (Z.of_nat k mod 2) = true).
    { apply in_table_iff.
      pose proof (Z.mod_pos_bound (Z.of_nat k) 2).
      pose proof (Z.div_pos (Z.of_nat k) 2).
      assert (Z.of_nat k / 2 < 32) by (apply Z.div_lt_upper_bound; lia).
      lia. }
    specialize (Hcells _ _ Hin). unfold reg_get, cell in Hcells.
    replace (Z.to_nat (2 * (Z.of_nat k / 2) + Z.of_nat k mod 2)) with k in Hcells
      by (rewrite <- Z.div_mod by lia; lia).
    rewrite Hk in Hcells. cbn in Hcells. lia.
Qed.

End IntRange.

(** ** Concrete traces *)

(** Addresses 0x1000 ([beq]), 0x1004 ([beq]), 0x1010: the second record is
    a branch not taken, the third a forward one. *)
Example branch_scenario :
  (fun s => (fwdTaken s, bkwTaken s, notTaken s))
    <$> getStat [(0x1000, 0x10000000); (0x1004, 0x10000000); (0x1010, 0x00430820)]
  = Some (1, 0, 1).
Proof. reflexivity. Qed.

(** Addresses 0x2000, 0x1FF0: the difference is -16, a backward branch. *)
Example backward_scenario :
  (fun s => (fwdTaken s, bkwTaken s, notTaken s))
    <$> getStat [(0x2000, 0x00430820); (0x1FF0, 0x00430820)]
  = Some (0, 1, 0).
Proof. reflexivity. Qed.

(** [add $1, $2, $3] (word 0x00430820): one write of register 1, one read
    each of registers 2 and 3. *)
Example add_scenario :
  (fun s => (reg_get s 1 write, reg_get s 2 read, reg_get s 3 read,
             reg_get s 1 read, arith s))
    <$> getStat [(0x1000, 0x00430820)]
  = Some (1, 1, 1, 0, 1).
Proof. reflexivity. Qed.

(** A record whose word is missing at the end of the input is still
    counted: [fscanf] returns 1 there, and [EOF] only on the next call. *)
Example trailing_address_is_counted :
  Reader.read_loop 3 [Reader.Hex 0x1000; Reader.Hex 0x00430820; Reader.Hex 0x1004]
                   0 [(0, 0); (7, 7)]
  = Reader.Done (2, [(0x1000, 0x00430820); (0x1004, 7)]).
Proof. reflexivity. Qed.

(** * Further properties of the code *)

(** ** Decoding *)

(** X1: every word decodes; each field is inside the range of its width
    ([op], [funct]: 6 bits; [rs], [rt], [rd], [shamt]: 5 bits; [imm]: 16
    bits; [jAddr]: 26 bits), and the six fields [op], [rs], [rt], [rd],
    [shamt] and [funct], each at its position, add up to the low 32 bits of
    the word: they cover those bits with no gap and no overlap.  [imm] is
    the low 16 bits of the word, [jAddr] its low 26 bits, and the format
    is the one [getOp] gives to the opcode. *)
Theorem decode_reconstructs_word (a w : Z) :
  exists ins,
    decode a w = Some ins
    /\ addr ins = a /\ word ins = w
    /\ (0 <= op ins < 2 ^ 6 /\ 0 <= rs ins < 2 ^ 5 /\ 0 <= rt ins < 2 ^ 5
        /\ 0 <= rd ins < 2 ^ 5 /\ 0 <= shamt ins < 2 ^ 5
        /\ 0 <= funct ins < 2 ^ 6)
    /\ op ins * 2 ^ 26 + rs ins * 2 ^ 21 + rt ins * 2 ^ 16 + rd ins * 2 ^ 11
       + shamt ins * 2 ^ 6 + funct ins = w mod 2 ^ 32
    /\ imm ins = w mod 2 ^ 16
    /\ jAddr ins = w mod 2 ^ 26
    /\ type ins = getOp (op ins).
Proof.
  exists (decode_fields a w). split; [apply decode_eq |].
  cbn [addr word op rs rt rd shamt funct imm jAddr type decode_fields].
  split; [reflexivity |]. split; [reflexivity |].
  split.
  { pose proof (field_range w 26 6). pose proof (field_range w 21 5).
    pose proof (field_range w 16 5). pose proof (field_range w 11 5).
    pose proof (field_range w 6 5). pose proof (field_range w 0 6). lia. }
  unfold field.
  change (2 ^ 0) with 1. rewrite Z.div_1_r.
  change (2 ^ 32) with 4294967296. change (2 ^ 26) with 67108864.
  change (2 ^ 21) with 2097152. change (2 ^ 16) with 65536.
  change (2 ^ 11) with 2048. change (2 ^ 6) with 64. change (2 ^ 5) with 32.
  repeat split.
  Z.to_euclidean_division_equations. lia.
Qed.

(** X2: on every range whose two shifts are defined (0 <= start <= end <= 63,
    at most 63 bits wide) [bitsAt] returns the bits of the range converted
    to [int]: a field of 32 bits or more wraps modulo 2^32 into the range
    of [int], so it can come back negative. *)
Theorem bitsAt_wide_range (w start end_ : Z) :
  0 <= start -> start <= end_ -> end_ <= 63 -> end_ - start + 1 <= 63 ->
  bitsAt w start end_ = Some (to_int (field w start (end_ - start + 1)))
  /\ INT_MIN <= to_int (field w start (end_ - start + 1)) <= INT_MAX.
Proof.
  intros Hs Hse He Hn. split; [| apply to_int_range].
  unfold bitsAt, shift_ok.
  replace (0 <=? end_ - start + 1) with true by (symmetry; lia).
  replace (end_ - start + 1 <? 64) with true by (symmetry; lia).
  replace (0 <=? start) with true by (symmetry; lia).
  replace (start <? 64) with true by (symmetry; lia).
  cbn [andb]. cbv zeta. unfold bitsAt_masked.
  now rewrite bitMask_eq, masked_field by lia.
Qed.

Lemma bitsAt_wide_range_witness :
  bitsAt 0xFFFFFFFF 0 31 = Some (to_int (field 0xFFFFFFFF 0 (31 - 0 + 1)))
  /\ INT_MIN <= to_int (field 0xFFFFFFFF 0 (31 - 0 + 1)) <= INT_MAX.
Proof. apply bitsAt_wide_range; lia. Defined.

(** A 32-bit field with its top bit set comes back negative. *)
Example bitsAt_negative : bitsAt 0xFFFFFFFF 0 31 = Some (-1).
Proof. reflexivity. Qed.

(** ** The tallies of a trace *)

Section Tallies.

(** What one iteration adds to the format, load, store and arithmetic
    counters, by the opcode and the function code of the word. *)
Lemma getStat_step_tallies (st st' : Stats) (prev prev' : option Instruction)
    (a w : Z) :
  getStat_step (st, prev) (a, w) = Some (st', prev') ->
  rType st' = rType st + (if field w 26 6 =? 0x00 then 1 else 0)
  /\ jType st'
     = jType st + (if (field w 26 6 =? 0x02) || (field w 26 6 =? 0x03) then 1 else 0)
  /\ iType st' = iType st + (if mem (field w 26 6) [0x00; 0x02; 0x03] then 0 else 1)
  /\ loads st' = loads st + (if mem (field w 26 6) load_ops then 1 else 0)
  /\ stores st' = stores st + (if mem (field w 26 6) store_ops then 1 else 0)
  /\ arith st'
     = arith st
       + (if field w 26 6 =? 0x00
          then (if mem (field w 0 6) arith_functs then 1 else 0)
          else (if mem (field w 26 6) arith_ops then 1 else 0)).
Proof.
  intros H. apply getStat_step_shape in H as (st1 & Hsame & -> & _).
  destruct (branch_counters prev (decode_fields a w) st1)
    as (_ & -> & -> & -> & -> & -> & -> & _).
  unfold same_counters in Hsame. rewrite Hsame.
  cbn [rType iType jType loads stores arith set_reg].
  unfold tally, addArith, addToLoad, addType.
  cbn [type op funct decode_fields]. unfold getOp.
  generalize (field w 26 6) (field w 0 6). intros opc fn.
  destruct (mem fn arith_functs);
    unfold mem, load_ops, store_ops, arith_ops; cbn [existsb];
    repeat match goal with
           | |- context [Z.eqb opc ?c] =>
               destruct (Z.eqb_spec opc c); [subst opc; cbn; repeat split; lia |]
           end;
    cbn; repeat split; lia.
Qed.

Lemma getStat_loop_insts (recs : list (Z * Z))
    (acc acc' : Stats * option Instruction) :
  getStat_loop recs acc = Some acc' ->
  insts (fst acc') = insts (fst acc) + Z.of_nat (length recs).
Proof.
  revert acc. induction recs as [| rec recs IH]; intros [st prev] H.
  - injection H as <-. cbn. lia.
  - cbn [getStat_loop] in H.
    apply bind_Some in H as ([st1 prev1] & Hstep & Hrest).
    apply getStat_step_insts in Hstep as [Hi _].
    apply IH in Hrest. cbn [fst length] in *. lia.
Qed.

(** The sum of the three branch counters. *)
Lemma getStat_step_outcomes (st st' : Stats) (prev prev' : option Instruction)
    (rec : Z * Z) :
  getStat_step (st, prev) rec = Some (st', prev') ->
  fwdTaken st <= fwdTaken st' /\ bkwTaken st <= bkwTaken st'
  /\ notTaken st <= notTaken st'
  /\ fwdTaken st' + bkwTaken st' + notTaken st'
     <= fwdTaken st + bkwTaken st + notTaken st
        + (match prev with Some _ => 1 | None => 0 end).
Proof.
  destruct rec as [a w]. intros H. apply getStat_step_branch in H.
  destruct prev as [p |].
  - unfold classifyBranch in H.
    repeat match type of H with
           | context [if ?b then _ else _] => destruct b
           end; injection H as -> -> ->; lia.
  - injection H as -> -> ->. lia.
Qed.

Lemma getStat_loop_outcomes (recs : list (Z * Z))
    (acc acc' : Stats * option Instruction) :
  getStat_loop recs acc = Some acc' ->
  fwdTaken (fst acc) <= fwdTaken (fst acc')
  /\ bkwTaken (fst acc) <= bkwTaken (fst acc')
  /\ notTaken (fst acc) <= notTaken (fst acc')
  /\ fwdTaken (fst acc') + bkwTaken (fst acc') + notTaken (fst acc')
     <= fwdTaken (fst acc) + bkwTaken (fst acc) + notTaken (fst acc)
        + Z.of_nat (length recs)
        - (match snd acc with
           | Some _ => 0
           | None => Z.min (Z.of_nat (length recs)) 1
           end).
Proof.
  revert acc. induction recs as [| rec recs IH]; intros [st prev] H.
  - injection H as <-. cbn. destruct prev; lia.
  - cbn [getStat_loop] in H.
    apply bind_Some in H as ([st1 prev1] & Hstep & Hrest).
    assert (Hp : prev1 = Some (decode_fields (fst rec) (snd rec))).
    { destruct rec as [a w].
      apply getStat_step_shape in Hstep as (? & _ & _ & ->). reflexivity. }
    apply getStat_step_outcomes in Hstep.
    apply IH in Hrest. subst prev1. cbn [fst snd length] in *.
    destruct prev; lia.
Qed.

End Tallies.

(** X3: [getStat] counts every record of the trace: the instruction count
    of the result is the length of the trace. *)
Theorem getStat_counts_records (recs : list (Z * Z)) :
  exists st, getStat recs = Some st /\ insts st = Z.of_nat (length recs).
Proof.
  destruct (getStat_loop_total recs (stats0, None)) as [acc Hacc].
  exists (fst acc). unfold getStat. rewrite Hacc. split; [reflexivity |].
  apply getStat_loop_insts in Hacc. exact Hacc.
Qed.

(** X4: one iteration adds one to exactly one format counter: to [rType]
    for opcode 0x00, to [jType] for opcodes 0x02 and 0x03, to [iType] for
    every other opcode. *)
Theorem format_tally (st : Stats) (prev : option Instruction) (a w : Z) :
  exists st' prev',
    getStat_step (st, prev) (a, w) = Some (st', prev')
    /\ (rType st', jType st', iType st')
       = (if field w 26 6 =? 0x00 then (rType st + 1, jType st, iType st)
          else if (field w 26 6 =? 0x02) || (field w 26 6 =? 0x03)
               then (rType st, jType st + 1, iType st)
               else (rType st, jType st, iType st + 1)).
Proof.
  destruct (getStat_step_Some st prev a w) as (st1 & _ & Hstep).
  eexists _, _. split; [exact Hstep |].
  apply getStat_step_tallies in Hstep as (-> & -> & -> & _).
  generalize (field w 26 6). intros opc. unfold mem. cbn [existsb].
  repeat match goal with
         | |- context [Z.eqb opc ?c] =>
             destruct (Z.eqb_spec opc c);
             [subst opc; cbn; rewrite ?Z.add_0_r; reflexivity |]
         end.
  cbn. rewrite ?Z.add_0_r. reflexivity.
Qed.

(** X5: one iteration adds one to [arith] exactly when the opcode is 0x00
    and the function code is one of 0x00, 0x01, 0x10, 0x12, 0x18, 0x19,
    0x1a, 0x1b, 0x20, 0x21, 0x22, 0x23, or when the opcode is 0x08 or 0x09;
    no other pass of the iteration touches the counter. *)
Theorem arith_tally (st : Stats) (prev : option Instruction) (a w : Z) :
  exists st' prev',
    getStat_step (st, prev) (a, w) = Some (st', prev')
    /\ arith st'
       = arith st
         + (if field w 26 6 =? 0x00
            then (if mem (field w 0 6)
                       [0x00; 0x01; 0x10; 0x12; 0x18; 0x19; 0x1a; 0x1b;
                        0x20; 0x21; 0x22; 0x23]
                  then 1 else 0)
            else (if (field w 26 6 =? 0x08) || (field w 26 6 =? 0x09)
                  then 1 else 0)).
Proof.
  destruct (getStat_step_Some st prev a w) as (st1 & _ & Hstep).
  eexists _, _. split; [exact Hstep |].
  apply getStat_step_tallies in Hstep as (_ & _ & _ & _ & _ & ->).
  f_equal. destruct (field w 26 6 =? 0x00).
  - generalize (field w 0 6). intros fn.
    unfold mem, arith_functs. cbn [existsb].
    repeat match goal with
           | |- context [Z.eqb fn ?c] =>
               destruct (Z.eqb_spec fn c); [subst fn; reflexivity |]
           end.
    reflexivity.
  - unfold mem, arith_ops. cbn [existsb]. now rewrite orb_false_r.
Qed.

(** X6: the three branch counters never decrease, and a trace has at most
    one branch outcome for each pair of consecutive records: their sum is
    at most the length of the trace less one (0 for the empty trace). *)
Theorem branch_outcomes_bounded (recs : list (Z * Z)) :
  exists st,
    getStat recs = Some st
    /\ 0 <= fwdTaken st /\ 0 <= bkwTaken st /\ 0 <= notTaken st
    /\ fwdTaken st + bkwTaken st + notTaken st
       <= Z.of_nat (Nat.pred (length recs)).
Proof.
  destruct (getStat_loop_total recs (stats0, None)) as [acc Hacc].
  exists (fst acc). unfold getStat. rewrite Hacc. split; [reflexivity |].
  apply getStat_loop_outcomes in Hacc. cbn [fst snd stats0 fwdTaken bkwTaken notTaken] in Hacc.
  destruct recs; cbn [length Nat.pred] in *; lia.
Qed.

(** X7: in the result of every trace the loads and the stores together
    are at most the I-type instructions, and the arithmetic instructions at
    most the R-type and I-type ones together (no J-type word is counted in
    either); none of the three counters is negative. *)
Theorem categories_within_formats (recs : list (Z * Z)) :
  exists st,
    getStat recs = Some st
    /\ 0 <= loads st /\ 0 <= stores st /\ 0 <= arith st
    /\ loads st + stores st <= iType st
    /\ arith st <= rType st + iType st.
Proof.
  destruct (getStat_total recs) as [st Hst]. exists st. split; [assumption |].
  apply (getStat_invariant
           (fun s => 0 <= loads s /\ 0 <= stores s /\ 0 <= arith s
                     /\ loads s + stores s <= iType s
                     /\ arith s <= rType s + iType s)) with (recs := recs);
    [| cbn; lia | assumption].
  intros s prev [a w] s' prev' HP Hstep.
  apply getStat_step_tallies in Hstep as (Hr & Hj & Hi & Hl & Hs & Ha).
  revert Hr Hj Hi Hl Hs Ha.
  generalize (field w 26 6) (field w 0 6). intros opc fn.
  destruct (mem fn arith_functs);
    unfold mem, load_ops, store_ops, arith_ops; cbn [existsb];
    repeat match goal with
           | |- context [Z.eqb opc ?c] =>
               destruct (Z.eqb_spec opc c); [subst opc; cbn; intros; lia |]
           end;
    cbn; intros; lia.
Qed.

(** X8: after a trace of [n] records every counter is between 0 and [n],
    the register table still has its 64 cells, and every cell is between
    [-n] and [2 n]; for the at most 1000 records that the buffer of [main]
    holds, every [int] of the result is far inside the range of [int]. *)
Theorem counters_bounded_by_length (recs : list (Z * Z)) :
  exists st,
    getStat recs = Some st
    /\ counters_within (Z.of_nat (length recs)) st
    /\ (Z.of_nat (length recs) <= 1000 ->
        Forall (fun c => INT_MIN <= c <= INT_MAX) (ints_of st)).
Proof.
  destruct (getStat_total recs) as [st Hst]. exists st. split; [assumption |].
  split; [now apply getStat_counters_within |].
  intros Hn. now apply (getStat_counters_fit_int recs).
Qed.

(** ** The read/write tally, case by case *)

(** Splits a hypothesis [mem x l = false] into one disequality test per
    element and uses them in the goal. *)
Ltac use_not_mem H :=
  unfold mem in H; cbn [existsb] in H;
  repeat (let H1 := fresh "Hne" in
          apply orb_false_iff in H; destruct H as [H1 H];
          rewrite ?H1);
  clear H.

(** Splits a hypothesis [mem x l = true] into one case per element. *)
Ltac use_mem H :=
  unfold mem in H; cbn [existsb] in H;
  repeat (apply orb_true_iff in H; destruct H as [H | H]);
  try discriminate H; apply Z.eqb_eq in H; rewrite H.

Ltac cells_by_cases Hlen :=
  reg_steps; eexists; split; [reflexivity |];
  let row := fresh "row" in
  let col := fresh "col" in
  let Hin := fresh "Hin" in
  intros row col Hin; read_cells Hlen; unfold hit, read, write in *;
  repeat match goal with
         | |- context [Z.eqb ?x ?y] => destruct (Z.eqb_spec x y)
         end;
  cbn [andb]; lia.

Section RegisterCases.

Variable st : Stats.
Variable ins : Instruction.
Hypothesis Hlen : length (reg st) = 64%nat.
Hypothesis Hrs : 0 <= rs ins < 32.
Hypothesis Hrt : 0 <= rt ins < 32.
Hypothesis Hrd : 0 <= rd ins < 32.
Hypothesis Hty : type ins = getOp (op ins).

Lemma rw_rtype :
  op ins = 0x00 -> mem (funct ins) [0x08; 0x00; 0x02; 0x03] = false ->
  exists st',
    addReadWrite st ins = Some st'
    /\ forall row col,
        in_table row col = true ->
        reg_get st' row col
        = reg_get st row col + hit row col (rd ins) write
          + hit row col (rs ins) read + hit row col (rt ins) read.
Proof.
  intros Hop Hf. unfold addReadWrite, reg_incr, reg_decr.
  rewrite Hty, Hop. cbn [getOp Z.eqb]. unfold mem. cbn [existsb].
  use_not_mem Hf. cbn [orb]. cells_by_cases Hlen.
Qed.

Lemma rw_shift :
  op ins = 0x00 -> mem (funct ins) [0x00; 0x02; 0x03] = true ->
  exists st',
    addReadWrite st ins = Some st'
    /\ forall row col,
        in_table row col = true ->
        reg_get st' row col
        = reg_get st row col + hit row col (rd ins) write
          + hit row col (rt ins) read.
Proof.
  intros Hop Hf. unfold addReadWrite, reg_incr, reg_decr.
  rewrite Hty, Hop. cbn [getOp Z.eqb].
  use_mem Hf; cbn [mem existsb Z.eqb Pos.eqb orb]; cells_by_cases Hlen.
Qed.

Lemma rw_itype :
  mem (op ins)
      [0x00; 0x02; 0x03; 0x0f; 0x04; 0x05; 0x28; 0x29; 0x2b; 0x38] = false ->
  exists st',
    addReadWrite st ins = Some st'
    /\ forall row col,
        in_table row col = true ->
        reg_get st' row col
        = reg_get st row col + hit row col (rt ins) write
          + hit row col (rs ins) read.
Proof.
  intros Hop. unfold addReadWrite, reg_incr, reg_decr.
  rewrite Hty. unfold getOp, mem. cbn [existsb].
  use_not_mem Hop. cbn [orb]. cells_by_cases Hlen.
Qed.

Lemma rw_lui :
  op ins = 0x0f ->
  exists st',
    addReadWrite st ins = Some st'
    /\ forall row col,
        in_table row col = true ->
        reg_get st' row col = reg_get st row col + hit row col (rt ins) write.
Proof.
  intros Hop. unfold addReadWrite, reg_incr, reg_decr.
  rewrite Hty, Hop. cbn [getOp Z.eqb Pos.eqb orb]. cells_by_cases Hlen.
Qed.

Lemma rw_two_reads :
  mem (op ins) [0x04; 0x05; 0x28; 0x29; 0x2b; 0x38] = true ->
  exists st',
    addReadWrite st ins = Some st'
    /\ forall row col,
        in_table row col = true ->
        reg_get st' row col
        = reg_get st row col + hit row col (rs ins) read
          + hit row col (rt ins) read.
Proof.
  intros Hop. unfold addReadWrite, reg_incr, reg_decr. rewrite Hty.
  use_mem Hop; cbn [getOp mem existsb Z.eqb Pos.eqb orb]; cells_by_cases Hlen.
Qed.

Lemma rw_jump :
  op ins = 0x02 -> addReadWrite st ins = Some st.
Proof.
  intros Hop. unfold addReadWrite. rewrite Hty, Hop. reflexivity.
Qed.

End RegisterCases.

(** X9: for a decoded R-type instruction (opcode 0x00) whose function code
    is none of 0x08, 0x00, 0x02, 0x03, the tally adds one write of [rd], one
    read of [rs] and one read of [rt] (two reads of one register when [rs]
    and [rt] name the same), and changes no other cell. *)
Theorem rtype_read_write (st : Stats) (a w : Z) (ins : Instruction) :
  length (reg st) = 64%nat ->
  decode a w = Some ins ->
  op ins = 0x00 -> mem (funct ins) [0x08; 0x00; 0x02; 0x03] = false ->
  exists st',
    addReadWrite st ins = Some st'
    /\ forall row col,
        in_table row col = true ->
        reg_get st' row col
        = reg_get st row col + hit row col (rd ins) write
          + hit row col (rs ins) read + hit row col (rt ins) read.
Proof.
  intros Hlen Hdec Hop Hf. rewrite decode_eq in Hdec. injection Hdec as <-.
  destruct (decode_fields_regs a w) as (Hrs & Hrt & Hrd).
  now apply rw_rtype.
Qed.

Lemma rtype_read_write_witness :
  exists st',
    addReadWrite stats0 (decode_fields 0x1000 0x00430820) = Some st'
    /\ forall row col,
        in_table row col = true ->
        reg_get st' row col
        = reg_get stats0 row col
          + hit row col (rd (decode_fields 0x1000 0x00430820)) write
          + hit row col (rs (decode_fields 0x1000 0x00430820)) read
          + hit row col (rt (decode_fields 0x1000 0x00430820)) read.
Proof. apply (rtype_read_write stats0 0x1000 0x00430820); reflexivity. Defined.

(** X10: for a decoded R-type instruction with function code 0x00, 0x02 or
    0x03 (the shifts by a constant) the tally adds one write of [rd] and
    one read of [rt]; the read of [rs] is taken back, and no other cell
    changes. *)
Theorem shift_read_write (st : Stats) (a w : Z) (ins : Instruction) :
  length (reg st) = 64%nat ->
  decode a w = Some ins ->
  op ins = 0x00 -> mem (funct ins) [0x00; 0x02; 0x03] = true ->
  exists st',
    addReadWrite st ins = Some st'
    /\ forall row col,
        in_table row col = true ->
        reg_get st' row col
        = reg_get st row col + hit row col (rd ins) write
          + hit row col (rt ins) read.
Proof.
  intros Hlen Hdec Hop Hf. rewrite decode_eq in Hdec. injection Hdec as <-.
  destruct (decode_fields_regs a w) as (Hrs & Hrt & Hrd).
  now apply rw_shift.
Qed.

Lemma shift_read_write_witness :
  exists st',
    addReadWrite stats0 (decode_fields 0x1000 0x00020900) = Some st'
    /\ forall row col,
        in_table row col = true ->
        reg_get st' row col
        = reg_get stats0 row col
          + hit row col (rd (decode_fields 0x1000 0x00020900)) write
          + hit row col (rt (decode_fields 0x1000 0x00020900)) read.
Proof. apply (shift_read_write stats0 0x1000 0x00020900); reflexivity. Defined.

(** X11: for a decoded I-type instruction whose opcode is none of 0x0f,
    0x04, 0x05, 0x28, 0x29, 0x2b, 0x38 the tally adds one write of [rt] and
    one read of [rs], and changes no other cell. *)
Theorem itype_read_write (st : Stats) (a w : Z) (ins : Instruction) :
  length (reg st) = 64%nat ->
  decode a w = Some ins ->
  mem (op ins)
      [0x00; 0x02; 0x03; 0x0f; 0x04; 0x05; 0x28; 0x29; 0x2b; 0x38] = false ->
  exists st',
    addReadWrite st ins = Some st'
    /\ forall row col,
        in_table row col = true ->
        reg_get st' row col
        = reg_get st row col + hit row col (rt ins) write
          + hit row col (rs ins) read.
Proof.
  intros Hlen Hdec Hop. rewrite decode_eq in Hdec. injection Hdec as <-.
  destruct (decode_fields_regs a w) as (Hrs & Hrt & Hrd).
  now apply rw_itype.
Qed.

Lemma itype_read_write_witness :
  exists st',
    addReadWrite stats0 (decode_fields 0x1000 0x20410005) = Some st'
    /\ forall row col,
        in_table row col = true ->
        reg_get st' row col
        = reg_get stats0 row col
          + hit row col (rt (decode_fields 0x1000 0x20410005)) write
          + hit row col (rs (decode_fields 0x1000 0x20410005)) read.
Proof. apply (itype_read_write stats0 0x1000 0x20410005); reflexivity. Defined.

(** X12: for a decoded instruction with opcode 0x0f ([lui]) the tally adds
    one write of [rt] and nothing else: the read of [rs] is taken back. *)
Theorem lui_read_write (st : Stats) (a w : Z) (ins : Instruction) :
  length (reg st) = 64%nat ->
  decode a w = Some ins -> op ins = 0x0f ->
  exists st',
    addReadWrite st ins = Some st'
    /\ forall row col,
        in_table row col = true ->
        reg_get st' row col = reg_get st row col + hit row col (rt ins) write.
Proof.
  intros Hlen Hdec Hop. rewrite decode_eq in Hdec. injection Hdec as <-.
  destruct (decode_fields_regs a w) as (Hrs & Hrt & Hrd).
  now apply rw_lui.
Qed.

Lemma lui_read_write_witness :
  exists st',
    addReadWrite stats0 (decode_fields 0x1000 0x3C010005) = Some st'
    /\ forall row col,
        in_table row col = true ->
        reg_get st' row col
        = reg_get stats0 row col
          + hit row col (rt (decode_fields 0x1000 0x3C010005)) write.
Proof. apply (lui_read_write stats0 0x1000 0x3C010005); reflexivity. Defined.

(** X13: for a decoded instruction with opcode 0x04, 0x05 (the two
    branches) or 0x28, 0x29, 0x2b, 0x38 (the stores) the tally adds one read
    of [rs] and one read of [rt] and no write: the write of [rt] is turned
    into a read. *)
Theorem branch_store_read_write (st : Stats) (a w : Z) (ins : Instruction) :
  length (reg st) = 64%nat ->
  decode a w = Some ins ->
  mem (op ins) [0x04; 0x05; 0x28; 0x29; 0x2b; 0x38] = true ->
  exists st',
    addReadWrite st ins = Some st'
    /\ forall row col,
        in_table row col = true ->
        reg_get st' row col
        = reg_get st row col + hit row col (rs ins) read
          + hit row col (rt ins) read.
Proof.
  intros Hlen Hdec Hop. rewrite decode_eq in Hdec. injection Hdec as <-.
  destruct (decode_fields_regs a w) as (Hrs & Hrt & Hrd).
  now apply rw_two_reads.
Qed.

Lemma branch_store_read_write_witness :
  exists st',
    addReadWrite stats0 (decode_fields 0x1000 0xAC410000) = Some st'
    /\ forall row col,
        in_table row col = true ->
        reg_get st' row col
        = reg_get stats0 row col
          + hit row col (rs (decode_fields 0x1000 0xAC410000)) read
          + hit row col (rt (decode_fields 0x1000 0xAC410000)) read.
Proof.
  apply (branch_store_read_write stats0 0x1000 0xAC410000); reflexivity.
Defined.

(** X14: a decoded instruction with opcode 0x02 ([j]) leaves the whole
    record, the register table included, as it was. *)
Theorem jump_read_write (st : Stats) (a w : Z) (ins : Instruction) :
  decode a w = Some ins -> op ins = 0x02 -> addReadWrite st ins = Some st.
Proof.
  intros Hdec Hop. rewrite decode_eq in Hdec. injection Hdec as <-.
  now apply rw_jump.
Qed.

Lemma jump_read_write_witness :
  addReadWrite stats0 (decode_fields 0x1000 0x08100000) = Some stats0.
Proof. apply (jump_read_write stats0 0x1000 0x08100000); reflexivity. Defined.

(** ** Counts that cannot go below zero *)

Section NonNegative.

(** Apart from [jal], no instruction lowers a cell of the table. *)
Lemma addReadWrite_monotone (st : Stats) (ins : Instruction) :
  length (reg st) = 64%nat ->
  0 <= rs ins < 32 -> 0 <= rt ins < 32 -> 0 <= rd ins < 32 ->
  op ins <> 0x03 ->
  exists st',
    addReadWrite st ins = Some st'
    /\ length (reg st') = 64%nat
    /\ forall row col,
        in_table row col = true -> reg_get st row col <= reg_get st' row col.
Proof.
  intros Hlen Hrs Hrt Hrd Hop.
  assert (E : (op ins =? 0x03) = false) by now apply Z.eqb_neq.
  unfold addReadWrite, reg_incr, reg_decr.
  destruct (type ins); rewrite ?E; reg_steps;
    repeat match goal with
           | |- context [if ?b then _ else _] => destruct b; reg_steps
           end;
    (eexists; split; [reflexivity |]; split;
     [ cbn [reg set_reg]; rewrite ?length_alter; exact Hlen
     | intros row col Hin; read_cells Hlen; unfold read, write in *;
       repeat match goal with
              | |- context [Z.eqb ?x ?y] => destruct (Z.eqb_spec x y)
              end;
       cbn [andb]; lia ]).
Qed.

Lemma getStat_step_nonneg (st st' : Stats) (prev prev' : option Instruction)
    (a w : Z) :
  field w 26 6 <> 0x03 ->
  nonneg_table st ->
  getStat_step (st, prev) (a, w) = Some (st', prev') ->
  nonneg_table st'.
Proof.
  intros Hop [Hlen Hcells] Hstep. rewrite getStat_step_unfold in Hstep.
  apply bind_Some in Hstep as (st1 & Hrw & [= <- <-]).
  set (ins := decode_fields a w) in *.
  destruct (decode_fields_regs a w) as (Hrs & Hrt & Hrd). fold ins in Hrs, Hrt, Hrd.
  destruct (tally_counters st ins) as (_ & _ & _ & _ & _ & Htreg).
  assert (Hlen' : length (reg (tally st ins)) = 64%nat) by now rewrite Htreg.
  destruct (addReadWrite_monotone (tally st ins) ins Hlen' Hrs Hrt Hrd Hop)
    as (st1' & Hrw' & Hlen1 & Hmono).
  rewrite Hrw in Hrw'. injection Hrw' as <-.
  destruct (branch_counters prev ins st1) as (_ & _ & _ & _ & _ & _ & _ & Hreg).
  split; [now rewrite Hreg |].
  intros row col Hin. specialize (Hmono row col Hin).
  specialize (Hcells row col Hin).
  unfold reg_get in *. rewrite Hreg. rewrite Htreg in Hmono. lia.
Qed.

Lemma getStat_loop_nonneg (recs : list (Z * Z))
    (acc acc' : Stats * option Instruction) :
  forallb (fun rec => negb (field (snd rec) 26 6 =? 0x03)) recs = true ->
  nonneg_table (fst acc) ->
  getStat_loop recs acc = Some acc' ->
  nonneg_table (fst acc').
Proof.
  revert acc. induction recs as [| [a w] recs IH]; intros [st prev] Hall HP H.
  - injection H as <-. exact HP.
  - cbn [forallb snd] in Hall. apply andb_true_iff in Hall as [Hw Hall].
    apply negb_true_iff, Z.eqb_neq in Hw.
    cbn [getStat_loop] in H.
    apply bind_Some in H as ([st1 prev1] & Hstep & Hrest).
    apply (IH (st1, prev1)); [exact Hall | | exact Hrest].
    cbn [fst] in *. eapply getStat_step_nonneg; eassumption.
Qed.

End NonNegative.

(** X15: for a trace with no [jal] (no word with opcode 0x03) every read
    count and every write count of the result is at least zero. *)
Theorem counts_nonnegative_without_jal (recs : list (Z * Z)) :
  forallb (fun rec => negb (field (snd rec) 26 6 =? 0x03)) recs = true ->
  exists st,
    getStat recs = Some st
    /\ forall row col, in_table row col = true -> 0 <= reg_get st row col.
Proof.
  intros Hall. destruct (getStat_loop_total recs (stats0, None)) as [acc Hacc].
  exists (fst acc). unfold getStat. rewrite Hacc. split; [reflexivity |].
  apply getStat_loop_nonneg in Hacc; [apply Hacc | exact Hall |].
  destruct stats0_within as (_ & _ & Hlen & Hcells). split; [exact Hlen |].
  intros row col Hin. specialize (Hcells row col Hin). cbn [fst]. lia.
Qed.

Lemma counts_nonnegative_without_jal_witness :
  exists st,
    getStat [(0x1000, 0x00430820); (0x1004, 0x03e00008)] = Some st
    /\ forall row col, in_table row col = true -> 0 <= reg_get st row col.
Proof.
  apply (counts_nonnegative_without_jal
           [(0x1000, 0x00430820); (0x1004, 0x03e00008)]).
  reflexivity.
Defined.

(** ** Concatenation of traces *)

Section Concatenation.

(** What [addReadWrite] adds to a cell depends on the instruction only. *)
Lemma addReadWrite_delta (st1 st2 : Stats) (ins : Instruction) :
  length (reg st1) = 64%nat -> length (reg st2) = 64%nat ->
  0 <= rs ins < 32 -> 0 <= rt ins < 32 -> 0 <= rd ins < 32 ->
  exists st1' st2',
    addReadWrite st1 ins = Some st1'
    /\ addReadWrite st2 ins = Some st2'
    /\ length (reg st1') = 64%nat /\ length (reg st2') = 64%nat
    /\ forall row col,
        in_table row col = true ->
        reg_get st1' row col - reg_get st1 row col
        = reg_get st2' row col - reg_get st2 row col.
Proof.
  intros Hlen1 Hlen2 Hrs Hrt Hrd. unfold addReadWrite, reg_incr, reg_decr.
  destruct (type ins); reg_steps;
    repeat match goal with
           | |- context [if ?b then _ else _] => destruct b; reg_steps
           end;
    (eexists _, _; split; [reflexivity |]; split; [reflexivity |];
     split; [cbn [reg set_reg]; rewrite ?length_alter; exact Hlen1 |];
     split; [cbn [reg set_reg]; rewrite ?length_alter; exact Hlen2 |];
     intros row col Hin; read_cells Hlen1; lia).
Qed.

Lemma getStat_step_growth (x x' y y' : Stats)
    (p p' q q' : option Instruction) (rec : Z * Z) :
  length (reg x) = 64%nat -> length (reg y) = 64%nat ->
  getStat_step (x, p) rec = Some (x', p') ->
  getStat_step (y, q) rec = Some (y', q') ->
  length (reg x') = 64%nat /\ length (reg y') = 64%nat
  /\ p' = q' /\ same_growth x x' y y'.
Proof.
  destruct rec as [a w]. intros Hx Hy Hsx Hsy.
  pose proof (getStat_step_insts _ _ _ _ _ Hsx) as [Hix _].
  pose proof (getStat_step_insts _ _ _ _ _ Hsy) as [Hiy _].
  pose proof (getStat_step_tallies _ _ _ _ _ _ Hsx)
    as (Hrx & Hjx & Hitx & Hlx & Hstx & Hax).
  pose proof (getStat_step_tallies _ _ _ _ _ _ Hsy)
    as (Hry & Hjy & Hity & Hly & Hsty & Hay).
  rewrite getStat_step_unfold in Hsx, Hsy.
  apply bind_Some in Hsx as (x1 & Hrwx & [= <- <-]).
  apply bind_Some in Hsy as (y1 & Hrwy & [= <- <-]).
  set (ins := decode_fields a w) in *.
  destruct (decode_fields_regs a w) as (Hrs & Hrt & Hrd). fold ins in Hrs, Hrt, Hrd.
  destruct (tally_counters x ins) as (_ & _ & _ & _ & _ & Hxreg).
  destruct (tally_counters y ins) as (_ & _ & _ & _ & _ & Hyreg).
  assert (Hx' : length (reg (tally x ins)) = 64%nat) by now rewrite Hxreg.
  assert (Hy' : length (reg (tally y ins)) = 64%nat) by now rewrite Hyreg.
  destruct (addReadWrite_delta _ _ ins Hx' Hy' Hrs Hrt Hrd)
    as (x1' & y1' & Ex & Ey & Hlx1 & Hly1 & Hcells).
  rewrite Hrwx in Ex. injection Ex as <-.
  rewrite Hrwy in Ey. injection Ey as <-.
  destruct (branch_counters p ins x1) as (_ & _ & _ & _ & _ & _ & _ & Hbx).
  destruct (branch_counters q ins y1) as (_ & _ & _ & _ & _ & _ & _ & Hby).
  split; [now rewrite Hbx |]. split; [now rewrite Hby |].
  split; [reflexivity |].
  unfold same_growth. repeat split; try lia.
  intros row col Hin. specialize (Hcells row col Hin).
  unfold reg_get in *. rewrite Hbx, Hby. rewrite Hxreg, Hyreg in Hcells.
  exact Hcells.
Qed.

Lemma same_growth_refl (x y : Stats) : same_growth x x y y.
Proof. unfold same_growth. repeat split; intros; lia. Qed.

Lemma same_growth_trans (x x1 x' y y1 y' : Stats) :
  same_growth x x1 y y1 -> same_growth x1 x' y1 y' -> same_growth x x' y y'.
Proof.
  unfold same_growth.
  intros (H1 & H2 & H3 & H4 & H5 & H6 & H7 & H8)
         (K1 & K2 & K3 & K4 & K5 & K6 & K7 & K8).
  repeat split; try lia.
  intros row col Hin. specialize (H8 row col Hin). specialize (K8 row col Hin).
  lia.
Qed.

Lemma getStat_loop_growth (recs : list (Z * Z)) (x x' y y' : Stats)
    (p p' q q' : option Instruction) :
  length (reg x) = 64%nat -> length (reg y) = 64%nat ->
  getStat_loop recs (x, p) = Some (x', p') ->
  getStat_loop recs (y, q) = Some (y', q') ->
  same_growth x x' y y'.
Proof.
  revert x y p q. induction recs as [| rec recs IH]; intros x y p q Hx Hy Hlx Hly.
  - injection Hlx as <- <-. injection Hly as <- <-. apply same_growth_refl.
  - cbn [getStat_loop] in Hlx, Hly.
    apply bind_Some in Hlx as ([x1 p1] & Hsx & Hrx).
    apply bind_Some in Hly as ([y1 q1] & Hsy & Hry).
    destruct (getStat_step_growth _ _ _ _ _ _ _ _ _ Hx Hy Hsx Hsy)
      as (Hx1 & Hy1 & _ & Hg).
    eapply same_growth_trans; [exact Hg |].
    eapply IH; eassumption.
Qed.

End Concatenation.

(** X16: the instruction count, the three format counts, the loads, the
    stores, the arithmetic count and every cell of the register table are
    additive over the concatenation of traces: the result for [l1 ++ l2]
    holds the sum of the results for [l1] and for [l2]. *)
Theorem getStat_app_additive (l1 l2 : list (Z * Z)) :
  exists s1 s2 s,
    getStat l1 = Some s1 /\ getStat l2 = Some s2
    /\ getStat (l1 ++ l2) = Some s
    /\ insts s = insts s1 + insts s2
    /\ rType s = rType s1 + rType s2
    /\ iType s = iType s1 + iType s2
    /\ jType s = jType s1 + jType s2
    /\ loads s = loads s1 + loads s2
    /\ stores s = stores s1 + stores s2
    /\ arith s = arith s1 + arith s2
    /\ forall row col,
        in_table row col = true ->
        reg_get s row col = reg_get s1 row col + reg_get s2 row col.
Proof.
  destruct (getStat_loop_total l1 (stats0, None)) as [[s1 p1] H1].
  destruct (getStat_loop_total l2 (stats0, None)) as [[s2 p2] H2].
  destruct (getStat_loop_total l2 (s1, p1)) as [[s p] H].
  exists s1, s2, s. unfold getStat.
  rewrite getStat_loop_app, H1, H2. cbn [mbind option_bind]. rewrite H.
  split; [reflexivity |]. split; [reflexivity |]. split; [reflexivity |].
  pose proof (getStat_loop_within l1 0 (stats0, None) (s1, p1) stats0_within H1)
    as (_ & _ & Hlen1 & _).
  destruct stats0_within as (_ & _ & Hlen0 & _).
  cbn [fst] in Hlen1.
  destruct (getStat_loop_growth l2 _ _ _ _ _ _ _ _ Hlen1 Hlen0 H H2)
    as (K1 & K2 & K3 & K4 & K5 & K6 & K7 & K8).
  cbn [stats0 insts rType iType jType loads stores arith] in *.
  repeat split; try lia.
  intros row col Hin. specialize (K8 row col Hin).
  assert (H0 : reg_get stats0 row col = 0).
  { unfold reg_get. cbn [reg stats0].
    destruct (replicate 64 0 !! cell row col) as [z |] eqn:E; [| reflexivity].
    apply lookup_replicate in E as [-> _]. reflexivity. }
  lia.
Qed.

Section BoundaryPair.

Lemma getStat_step_branch_growth (x x' y y' : Stats) (p p' q' : option Instruction)
    (rec : Z * Z) :
  getStat_step (x, p) rec = Some (x', p') ->
  getStat_step (y, p) rec = Some (y', q') ->
  p' = q'
  /\ fwdTaken x' - fwdTaken x = fwdTaken y' - fwdTaken y
  /\ bkwTaken x' - bkwTaken x = bkwTaken y' - bkwTaken y
  /\ notTaken x' - notTaken x = notTaken y' - notTaken y.
Proof.
  destruct rec as [a w]. intros Hx Hy.
  pose proof (getStat_step_branch _ _ _ _ _ _ Hx) as Bx.
  pose proof (getStat_step_branch _ _ _ _ _ _ Hy) as By.
  apply getStat_step_shape in Hx as (_ & _ & _ & ->).
  apply getStat_step_shape in Hy as (_ & _ & _ & ->).
  split; [reflexivity |].
  destruct p as [ip |].
  - unfold classifyBranch in Bx, By.
    repeat match type of Bx with
           | context [if ?b then _ else _] => destruct b
           end; injection Bx as -> -> ->; injection By as -> -> ->; lia.
  - injection Bx as -> -> ->. injection By as -> -> ->. lia.
Qed.

Lemma getStat_loop_branch_growth (recs : list (Z * Z)) (x x' y y' : Stats)
    (p p' q' : option Instruction) :
  getStat_loop recs (x, p) = Some (x', p') ->
  getStat_loop recs (y, p) = Some (y', q') ->
  fwdTaken x' - fwdTaken x = fwdTaken y' - fwdTaken y
  /\ bkwTaken x' - bkwTaken x = bkwTaken y' - bkwTaken y
  /\ notTaken x' - notTaken x = notTaken y' - notTaken y.
Proof.
  revert x y p. induction recs as [| rec recs IH]; intros x y p Hx Hy.
  - injection Hx as <- <-. injection Hy as <- <-. lia.
  - cbn [getStat_loop] in Hx, Hy.
    apply bind_Some in Hx as ([x1 p1] & Hsx & Hrx).
    apply bind_Some in Hy as ([y1 q1] & Hsy & Hry).
    destruct (getStat_step_branch_growth _ _ _ _ _ _ _ _ Hsx Hsy)
      as (<- & H1 & H2 & H3).
    destruct (IH _ _ _ Hrx Hry) as (K1 & K2 & K3). lia.
Qed.

End BoundaryPair.

(** X17: the branch counters of a trace cut between the records [(pa, pw)]
    and [(ca, cw)] are the sums of the counters of the two parts, with the
    one outcome of the pair at the cut added by the rule of
    [addBranchCount]. *)
Theorem getStat_app_branches (l1 l2 : list (Z * Z)) (pa pw ca cw : Z) :
  exists s1 s2 s,
    getStat (l1 ++ [(pa, pw)]) = Some s1
    /\ getStat ((ca, cw) :: l2) = Some s2
    /\ getStat ((l1 ++ [(pa, pw)]) ++ (ca, cw) :: l2) = Some s
    /\ (fwdTaken s, bkwTaken s, notTaken s)
       = classifyBranch (addr_diff (to_long pa) (to_long ca)) (field pw 26 6)
           (fwdTaken s1 + fwdTaken s2, bkwTaken s1 + bkwTaken s2,
            notTaken s1 + notTaken s2).
Proof.
  destruct (getStat_loop_snoc l1 pa pw (stats0, None))
    as (s1 & s0 & p0 & _ & _ & H1).
  destruct (getStat_step_Some s1 (Some (decode_fields pa pw)) ca cw)
    as (x0 & _ & Hsx).
  destruct (getStat_step_Some stats0 None ca cw) as (y0 & _ & Hsy).
  set (ic := decode_fields ca cw) in *.
  set (x1 := branch (Some (decode_fields pa pw)) ic x0) in *.
  set (y1 := branch None ic y0) in *.
  destruct (getStat_loop_total l2 (x1, Some ic)) as [[s p] Hx].
  destruct (getStat_loop_total l2 (y1, Some ic)) as [[s2 p2] Hy].
  exists s1, s2, s. unfold getStat.
  rewrite (getStat_loop_app (l1 ++ [(pa, pw)])), H1.
  cbn [mbind option_bind getStat_loop].
  rewrite Hsx, Hsy. cbn [mbind option_bind]. rewrite Hx, Hy.
  split; [reflexivity |]. split; [reflexivity |]. split; [reflexivity |].
  destruct (getStat_loop_branch_growth _ _ _ _ _ _ _ _ Hx Hy) as (K1 & K2 & K3).
  apply getStat_step_branch in Hsx, Hsy.
  cbn [addr op decode_fields] in Hsx.
  cbn [stats0 fwdTaken bkwTaken notTaken] in Hsy. injection Hsy as Y1 Y2 Y3.
  unfold classifyBranch in *.
  repeat match type of Hsx with
         | context [if ?b then _ else _] => destruct b
         end; injection Hsx as X1 X2 X3; rewrite !pair_equal_spec; lia.
Qed.

(** ** The reading loop at the ends of its buffer and of its input *)

Section ReadingEdges.

Import Reader.

(** More well-formed records than the buffer holds: the store of the
    record after the last slot is outside [list]. *)
Lemma read_loop_overflow (recs : list (Z * Z)) (fuel : nat) (counter : Z)
    (buf : list (Z * Z)) :
  0 <= counter <= capacity ->
  capacity < counter + Z.of_nat (length recs) ->
  capacity - counter < Z.of_nat fuel ->
  read_loop fuel (tokens recs) counter buf = Undefined.
Proof.
  unfold capacity. revert fuel counter buf.
  induction recs as [| [a w] recs IH]; intros fuel counter buf Hc Hn Hf.
  - cbn [length] in Hn. lia.
  - destruct fuel as [| fuel]; [cbn in Hf; lia |].
    cbn [tokens fst snd read_loop fscanf store returned]. unfold capacity.
    destruct (Z.ltb_spec counter 1000) as [Hlt | Hge].
    + replace (0 <=? counter) with true by (symmetry; lia). cbn [andb].
      change (2 =? EOF) with false. cbn match.
      replace (counter <? INT_MAX) with true by (symmetry; unfold INT_MAX; lia).
      apply IH; cbn [length] in Hn; lia.
    + now rewrite andb_false_r.
Qed.

(** An address with no word at the end of the input: the address is
    stored, the word of the slot stays as it was, and the slot is counted. *)
Lemma read_loop_trailing_address (recs : list (Z * Z)) (a : Z) (counter : Z)
    (buf : list (Z * Z)) :
  0 <= counter -> counter + Z.of_nat (length recs) < capacity ->
  read_loop (S (S (length recs))) (tokens recs ++ [Hex a]) counter buf
  = Done (counter + Z.of_nat (length recs) + 1,
          alter (fun e => (a, snd e))
                (Z.to_nat (counter + Z.of_nat (length recs)))
                (fill (Z.to_nat counter) recs buf)).
Proof.
  unfold capacity. revert counter buf.
  induction recs as [| [a0 w0] recs IH]; intros counter buf Hc Hn.
  - cbn [length tokens app fill] in *.
    cbn [read_loop fscanf store returned]. unfold capacity.
    replace ((0 <=? counter) && (counter <? 1000)) with true
      by (symmetry; apply andb_true_iff; lia).
    change (1 =? EOF) with false. cbn match.
    replace (counter <? INT_MAX) with true by (symmetry; unfold INT_MAX; lia).
    cbn [fscanf store returned]. change (EOF =? EOF) with true. cbn match.
    now rewrite Z.add_0_r.
  - cbn [length] in *.
    change (read_loop (S (S (S (length recs))))
              (tokens ((a0, w0) :: recs) ++ [Hex a]) counter buf)
      with (let '(s, inp') :=
              fscanf (Hex a0 :: Hex w0 :: tokens recs ++ [Hex a]) in
            match store s counter buf with
            | None => Undefined
            | Some buf' =>
                if returned s =? EOF then Done (counter, buf')
                else if counter <? INT_MAX
                     then read_loop (S (S (length recs))) inp' (counter + 1) buf'
                     else Undefined
            end).
    cbn [fscanf store returned]. unfold capacity.
    replace ((0 <=? counter) && (counter <? 1000)) with true
      by (symmetry; apply andb_true_iff; lia).
    change (2 =? EOF) with false. cbn match.
    replace (counter <? INT_MAX) with true by (symmetry; unfold INT_MAX; lia).
    rewrite IH by lia. cbn [fill].
    replace (Z.to_nat (counter + 1)) with (S (Z.to_nat counter)) by lia.
    f_equal. f_equal; [lia |]. f_equal. lia.
Qed.

End ReadingEdges.

(** X18: on a well-formed trace of fewer than 1000 records, all of whose
    addresses and words fit [uint64_t], [main] reads the whole trace,
    analyses exactly its records in their order, and ends with the report
    of that analysis, whatever the buffer held before. *)
Theorem main_analyses_the_trace (recs buf : list (Z * Z)) :
  trace_ok recs = true ->
  Z.of_nat (length recs) < Reader.capacity -> length buf = 1000%nat ->
  exists st,
    getStat recs = Some st
    /\ Reader.main (S (length recs)) (Reader.tokens recs) buf
       = Reader.Done (Report.printStats st).
Proof. intros _ Hn Hbuf. apply main_wellformed; [lia | exact Hbuf]. Qed.

Lemma main_analyses_the_trace_witness :
  exists st,
    getStat [(0x1000, 0x00430820); (0x1004, 0x03e00008)] = Some st
    /\ Reader.main 3 (Reader.tokens [(0x1000, 0x00430820); (0x1004, 0x03e00008)])
                   (replicate 1000 (0, 0))
       = Reader.Done (Report.printStats st).
Proof.
  apply (main_analyses_the_trace
           [(0x1000, 0x00430820); (0x1004, 0x03e00008)] (replicate 1000 (0, 0))).
  - reflexivity.
  - vm_compute. reflexivity.
  - reflexivity.
Defined.

(** X19: on a well-formed trace of more than 1000 records the reading loop
    of [main] goes on after the last slot of its 1000-entry buffer: no cap
    stops it, and the 1001st record is stored behind the end of [list].
    From that store on the C standard defines no behaviour; the embedding
    ends there with the outcome [Undefined]. *)
Theorem main_overflows_buffer (recs buf : list (Z * Z)) (fuel : nat) :
  (1000 < length recs)%nat -> (1000 < fuel)%nat ->
  Reader.main fuel (Reader.tokens recs) buf = Reader.Undefined.
Proof.
  intros Hn Hf. unfold Reader.main.
  rewrite read_loop_overflow; [reflexivity | | |]; unfold Reader.capacity; lia.
Qed.

Lemma main_overflows_buffer_witness :
  Reader.main 1001 (Reader.tokens (replicate 1001 (0, 0))) (replicate 1000 (0, 0))
  = Reader.Undefined.
Proof.
  apply (main_overflows_buffer (replicate 1001 (0, 0)) (replicate 1000 (0, 0)) 1001).
  - rewrite length_replicate. lia.
  - lia.
Defined.

(** X20: when the input ends after an address with no word, [main] still
    counts that record: it is analysed with the word the buffer slot held
    before, after the complete records of the trace.  The trace and the
    address fit [uint64_t], and the records, the trailing one included,
    are fewer than 1000. *)
Theorem main_counts_trailing_address (recs buf : list (Z * Z)) (a : Z) :
  trace_ok recs = true -> uint64_ok a = true ->
  Z.of_nat (length recs) + 1 < Reader.capacity -> length buf = 1000%nat ->
  exists stale st,
    buf !! length recs = Some stale
    /\ getStat (recs ++ [(a, snd stale)]) = Some st
    /\ Reader.main (S (S (length recs)))
                   (Reader.tokens recs ++ [Reader.Hex a]) buf
       = Reader.Done (Report.printStats st).
Proof.
  unfold Reader.capacity. intros _ _ Hn Hbuf.
  destruct (lookup_lt_is_Some_2 buf (length recs)) as [stale Hstale]; [lia |].
  destruct (getStat_total (recs ++ [(a, snd stale)])) as [st Hst].
  exists stale, st. split; [assumption |]. split; [assumption |].
  unfold Reader.main.
  rewrite read_loop_trailing_address by (unfold Reader.capacity; lia).
  rewrite !Z.add_0_l, Nat2Z.id. change (Z.to_nat 0) with 0%nat.
  rewrite fill_eq by (cbn; lia). rewrite take_0. cbn [app].
  rewrite alter_app_r_alt by lia. rewrite Nat.sub_diag. cbn [Nat.add].
  rewrite (drop_S _ _ _ Hstale). cbn [alter list_alter].
  replace (Z.to_nat (Z.of_nat (length recs) + 1)) with (length recs + 1)%nat by lia.
  rewrite take_app_add. cbn [firstn]. rewrite take_0. now rewrite Hst.
Qed.

Lemma main_counts_trailing_address_witness :
  exists stale st,
    replicate 1000 (0, 0) !! length [(0x1000, 0x00430820)] = Some stale
    /\ getStat ([(0x1000, 0x00430820)] ++ [(0x1004, snd stale)]) = Some st
    /\ Reader.main (S (S (length [(0x1000, 0x00430820)])))
                   (Reader.tokens [(0x1000, 0x00430820)] ++ [Reader.Hex 0x1004])
                   (replicate 1000 (0, 0))
       = Reader.Done (Report.printStats st).
Proof.
  apply (main_counts_trailing_address [(0x1000, 0x00430820)]
           (replicate 1000 (0, 0)) 0x1004).
  - reflexivity.
  - reflexivity.
  - vm_compute. reflexivity.
  - reflexivity.
Defined.

(** ** Branch direction and the addresses *)

(** X21: for two addresses below 2^63 (every 32-bit address is) the
    conversions to [long] and the subtraction do not wrap, and
    [addBranchCount] decides on the true difference: forward when the
    current address is more than 4 above the previous one, backward when it
    is below it, and not taken, for the opcodes 0x04 and 0x05 only, when
    it is 0 to 4 above. *)
Theorem addBranchCount_true_difference (st : Stats) (pa ca prevOp : Z) :
  0 <= pa < 2 ^ 63 -> 0 <= ca < 2 ^ 63 ->
  addBranchCount st (to_long pa) (to_long ca) prevOp
  = (if pa + 4 <? ca then inc_fwdTaken st
     else if ca <? pa then inc_bkwTaken st
     else if (prevOp =? 0x04) || (prevOp =? 0x05) then inc_notTaken st
     else st).
Proof.
  intros Hp Hc. unfold addBranchCount. rewrite addr_diff_exact by assumption.
  rewrite Z.gtb_ltb.
  destruct (Z.ltb_spec 4 (ca - pa)), (Z.ltb_spec (pa + 4) ca); try lia;
    try reflexivity.
  destruct (Z.ltb_spec (ca - pa) 0), (Z.ltb_spec ca pa); try lia; reflexivity.
Qed.

Lemma addBranchCount_true_difference_witness :
  addBranchCount stats0 (to_long 0x2000) (to_long 0x1FF0) 0x04
  = (if 0x2000 + 4 <? 0x1FF0 then inc_fwdTaken stats0
     else if 0x1FF0 <? 0x2000 then inc_bkwTaken stats0
     else if (0x04 =? 0x04) || (0x04 =? 0x05) then inc_notTaken stats0
     else stats0).
Proof. apply addBranchCount_true_difference; lia. Defined.

(** Above 2^63 the conversion wraps: from address 0 to address 2^63 the
    difference is negative, and the pair counts as a backward branch. *)
Example wrapped_difference_is_backward :
  addBranchCount stats0 (to_long 0) (to_long (2 ^ 63)) 0x00 = inc_bkwTaken stats0.
Proof. reflexivity. Qed.
